(** * organize.py: a verification model of the folder organizer

    The development embeds [src/organize.py] function by function:
    [slugify], [extension_bucket], [unique_path], [plan_actions],
    [write_log], [ensure_clean_output_folder], [apply] and [main].

    Conventions of the embedding.
    - A Python [str] is a [string]; a character is a code point below 256.
      [is_space] and [lower_char] are Python's [str.isspace] and
      [str.lower] on that range.
    - A [pathlib.Path] is the list of the components of an absolute POSIX
      path, the empty list being the root directory.  [main] resolves both
      roots before anything else, so every path the program handles is
      absolute.
    - The file system is a finite map from paths to nodes (a regular file
      with its text, or a directory).  There are no symbolic links, and a
      [..] component is a name like any other.
    - Code that reads or writes the disk lives in the monad [M]: a function
      from the file system to the file system it leaves behind and either a
      raised exception or a result. *)

From Stdlib Require Import Ascii String DecimalString.
From Stdlib Require DecimalPos DecimalN.
From stdpp Require Import base option list gmap strings.

Open Scope string_scope.
Open Scope list_scope.

#[local] Set Warnings "-clear-no-such-hyp".

(** ** Characters and strings *)

Module Str.

Definition code (c : ascii) : N := N_of_ascii c.

(** [lo <= c <= hi] on code points. *)
Definition between (lo hi c : ascii) : bool :=
  (code lo <=? code c)%N && (code c <=? code hi)%N.

(** [str.isspace] below 256: TAB..CR, FS..US, space, NEL and NBSP. *)
Definition is_space (c : ascii) : bool :=
  between "009" "013" c || between "028" "032" c
  || (code c =? 133)%N || (code c =? 160)%N.

(** [str.lower] on one character: A-Z, and the Latin-1 capitals
    (0xC0..0xDE, the multiplication sign 0xD7 apart). *)
Definition lower_char (c : ascii) : ascii :=
  if between "A" "Z" c
     || (between "192" "222" c && negb (code c =? 215)%N)
  then ascii_of_N (code c + 32) else c.

Fixpoint lower (s : string) : string :=
  match s with
  | EmptyString => EmptyString
  | String c s' => String (lower_char c) (lower s')
  end.

Fixpoint lstrip (s : string) : string :=
  match s with
  | EmptyString => EmptyString
  | String c s' => if is_space c then lstrip s' else s
  end.

Fixpoint rstrip (s : string) : string :=
  match s with
  | EmptyString => EmptyString
  | String c s' =>
      match rstrip s' with
      | EmptyString => if is_space c then EmptyString else String c EmptyString
      | r => String c r
      end
  end.

(** [s.strip()] *)
Definition strip (s : string) : string := rstrip (lstrip s).

(** [s.replace(a, b)] for one-character [a] and [b]. *)
Fixpoint replace_char (a b : ascii) (s : string) : string :=
  match s with
  | EmptyString => EmptyString
  | String c s' =>
      String (if Ascii.eqb c a then b else c) (replace_char a b s')
  end.

(** [re.sub(r"[cls]+", repl, s)]: the scan replaces every maximal run of
    characters of the class by one copy of [repl]; [in_run] tells that the
    previous character belonged to the run being replaced. *)
Fixpoint re_sub_runs (cls : ascii -> bool) (repl : string) (in_run : bool)
    (s : string) : string :=
  match s with
  | EmptyString => EmptyString
  | String c s' =>
      if cls c then
        if in_run then re_sub_runs cls repl true s'
        else repl +:+ re_sub_runs cls repl true s'
      else String c (re_sub_runs cls repl false s')
  end.

Definition re_sub (cls : ascii -> bool) (repl s : string) : string :=
  re_sub_runs cls repl false s.

(** [str(i)] for a natural number. *)
Definition decimal (i : N) : string := NilZero.string_of_uint (N.to_uint i).

(** [s.startswith(".")] *)
Definition starts_with_dot (s : string) : bool :=
  match s with
  | String "." _ => true
  | _ => false
  end.

(** [s.startswith("/")] *)
Definition starts_with_slash (s : string) : bool :=
  match s with
  | String "/" _ => true
  | _ => false
  end.

(** [s.rfind(".")], [None] standing for -1. *)
Fixpoint rfind_dot (s : string) : option nat :=
  match s with
  | EmptyString => None
  | String c s' =>
      match rfind_dot s' with
      | Some i => Some (S i)
      | None => if Ascii.eqb c "." then Some 0 else None
      end
  end.

(** [s.split("/")] *)
Fixpoint split_slash (s : string) : list string :=
  match s with
  | EmptyString => [EmptyString]
  | String c s' =>
      if Ascii.eqb c "/" then EmptyString :: split_slash s'
      else match split_slash s' with
           | [] => [String c EmptyString]
           | w :: ws => String c w :: ws
           end
  end.

(** ["/".join(l)] *)
Fixpoint join_slash (l : list string) : string :=
  match l with
  | [] => EmptyString
  | [w] => w
  | w :: ws => w +:+ "/" +:+ join_slash ws
  end.

(** ["\n".join(l)] *)
Fixpoint join_lines (l : list string) : string :=
  match l with
  | [] => EmptyString
  | [w] => w
  | w :: ws => w +:+ String "010" (join_lines ws)
  end.

End Str.

(** ** The slugifier (organize.py, lines 17-21) *)

(** The character class [A-Za-z0-9._-]. *)
Definition slug_char (c : ascii) : bool :=
  Str.between "A" "Z" c || Str.between "a" "z" c || Str.between "0" "9" c
  || Ascii.eqb c "." || Ascii.eqb c "_" || Ascii.eqb c "-".

Definition is_underscore (c : ascii) : bool := Ascii.eqb c "_".

Definition slugify (name : string) : string :=
  let name := Str.replace_char " " "_" (Str.strip name) in
  let name := Str.re_sub (fun c => negb (slug_char c)) "" name in
  let name := Str.re_sub is_underscore "_" name in
  match name with
  | EmptyString => "file"
  | _ => name
  end.

(** The slugifier as section 4.1 of the specification words it, on the list
    of the name's characters: trim, turn spaces into underscores, keep the
    allowed characters, drop every underscore that follows an underscore,
    and fall back to "file". *)
Module SlugSpec.

Fixpoint drop_spaces (l : list ascii) : list ascii :=
  match l with
  | c :: l' => if Str.is_space c then drop_spaces l' else l
  | [] => []
  end.

Definition trim (l : list ascii) : list ascii :=
  reverse (drop_spaces (reverse (drop_spaces l))).

Definition space_to_underscore (c : ascii) : ascii :=
  if Ascii.eqb c " " then "_"%char else c.

Fixpoint collapse (l : list ascii) : list ascii :=
  match l with
  | [] => []
  | c :: l' =>
      match l' with
      | d :: _ =>
          if is_underscore c && is_underscore d then collapse l'
          else c :: collapse l'
      | [] => [c]
      end
  end.

Definition spec_slugify (name : string) : string :=
  let l := trim (list_ascii_of_string name) in
  let l := space_to_underscore <$> l in
  let l := List.filter slug_char l in
  let l := collapse l in
  match l with
  | [] => "file"
  | _ => string_of_list_ascii l
  end.

(** No two neighbouring underscores. *)
Fixpoint no_double_underscore (l : list ascii) : Prop :=
  match l with
  | c :: l' =>
      match l' with
      | d :: _ => ~ (is_underscore c && is_underscore d) /\ no_double_underscore l'
      | [] => True
      end
  | [] => True
  end.

End SlugSpec.

(** ** The rule set and the bucket resolver (organize.py, lines 29-34) *)

(** What [json.load] hands over: the object's two recognised fields, either
    of which may be absent.  A Python dict keeps insertion order, so the
    folders are a list of pairs. *)
Record Rules := {
  folders : option (list (string * list string));
  unknown_folder : option string
}.

(** [rules.get("folders", {})] *)
Definition rules_folders (rules : Rules) : list (string * list string) :=
  default [] (folders rules).

(** [rules.get("unknown_folder", "Other")] *)
Definition rules_unknown (rules : Rules) : string :=
  default "Other" (unknown_folder rules).

(** The [for folder, exts in ....items()] loop. *)
Fixpoint bucket_loop (ext : string) (items : list (string * list string))
    (fallback : string) : string :=
  match items with
  | [] => fallback
  | (folder, exts) :: rest =>
      if bool_decide (ext ∈ (Str.lower <$> exts)) then folder
      else bucket_loop ext rest fallback
  end.

Definition extension_bucket (ext : string) (rules : Rules) : string :=
  let ext := Str.lower ext in
  bucket_loop ext (rules_folders rules) (rules_unknown rules).

(** ** Paths (pathlib.PurePosixPath on absolute paths) *)

Abbreviation Path := (list string).

Inductive exn :=
  | SystemExit (msg : string)
  | RuntimeError (msg : string)
  | ValueError (msg : string)
  | FileNotFoundError (p : Path)
  | FileExistsError (p : Path)
  | NotADirectoryError (p : Path)
  | IsADirectoryError (p : Path)
  | ShutilError (msg : string)
  | JSONDecodeError.

Module Pth.

(** [p.name]; the root has the empty name. *)
Definition name (p : Path) : string := default "" (last p).

(** [p.parent]; the root is its own parent. *)
Definition parent (p : Path) : Path := removelast p.

(** The components pathlib reads off a string: the pieces between slashes,
    empty pieces and single dots dropped. *)
Definition parse_parts (s : string) : list string :=
  filter (fun w => w ≠ "" ∧ w ≠ ".") (Str.split_slash s).

(** [p / s]: a string that starts with a slash replaces [p] (two leading
    slashes, which POSIX may tell apart from one, are read as one). *)
Definition joinpath (p : Path) (s : string) : Path :=
  if Str.starts_with_slash s then parse_parts s else p ++ parse_parts s.

(** The index at which the suffix of a name starts: the last dot, unless it
    is the first or the last character of the name (pathlib up to
    Python 3.13). *)
Definition suffix_start (nm : string) : option nat :=
  match Str.rfind_dot nm with
  | Some i =>
      if (0 <? i)%nat && (i <? String.length nm - 1)%nat then Some i else None
  | None => None
  end.

Definition suffix_of (nm : string) : string :=
  match suffix_start nm with
  | Some i => substring i (String.length nm - i) nm
  | None => ""
  end.

Definition stem_of (nm : string) : string :=
  match suffix_start nm with
  | Some i => substring 0 i nm
  | None => nm
  end.

(** [p.suffix] and [p.stem] *)
Definition suffix (p : Path) : string := suffix_of (name p).
Definition stem (p : Path) : string := stem_of (name p).

(** ["/" in s] *)
Fixpoint has_slash (s : string) : bool :=
  match s with
  | EmptyString => false
  | String c s' => Ascii.eqb c "/" || has_slash s'
  end.

(** [p.with_name(nm)]: refused when [p] has no name, and when [nm] is
    empty, a single dot, or holds a slash. *)
Definition with_name (p : Path) (nm : string) : exn + Path :=
  if bool_decide (name p = "") then inl (ValueError "empty name")
  else if bool_decide (nm = "") || has_slash nm || bool_decide (nm = ".")
  then inl (ValueError "invalid name")
  else inr (parent p ++ [nm]).

(** [p.relative_to(other)] *)
Definition relative_to (p other : Path) : exn + Path :=
  if bool_decide (other `prefix_of` p) then inr (drop (length other) p)
  else inl (ValueError "not in the subpath").

(** [str(p)] *)
Definition render (p : Path) : string := "/" +:+ Str.join_slash p.

End Pth.

Notation "p // s" := (Pth.joinpath p s) (at level 40, left associativity).

(** ** The file system and the monad of disk effects *)

Inductive node :=
  | File (data : string)
  | Dir.

#[global] Instance node_eq_dec : EqDecision node.
Proof. solve_decision. Defined.

#[global] Instance exn_eq_dec : EqDecision exn.
Proof. solve_decision. Defined.

Abbreviation FS := (gmap Path node).

(** [os.stat]: the root directory always exists. *)
Definition stat (fs : FS) (p : Path) : option node :=
  match p with
  | [] => Some Dir
  | _ => fs !! p
  end.

Definition exists_on (fs : FS) (p : Path) : bool :=
  bool_decide (is_Some (stat fs p)).

Definition is_dir_on (fs : FS) (p : Path) : bool :=
  bool_decide (stat fs p = Some Dir).

(** The entries strictly below [root], in the map's enumeration order (the
    order of [os.scandir] is unspecified; nothing below depends on it). *)
Definition rglob_on (fs : FS) (root : Path) : list Path :=
  filter (fun p => strict prefix root p) (map_to_list fs).*1.

(** The children of [p]. *)
Definition iterdir_on (fs : FS) (p : Path) : list Path :=
  filter (fun q => q ≠ [] ∧ Pth.parent q = p) (map_to_list fs).*1.

Definition M (A : Type) : Type := FS -> FS * (exn + A).

#[global] Instance M_ret : MRet M := fun A x fs => (fs, inr x).

#[global] Instance M_bind : MBind M := fun A B f m fs =>
  match m fs with
  | (fs', inr x) => f x fs'
  | (fs', inl e) => (fs', inl e)
  end.

Definition raise {A} (e : exn) : M A := fun fs => (fs, inl e).
Definition lift {A} (r : exn + A) : M A := fun fs => (fs, r).
Definition reads {A} (f : FS -> A) : M A := fun fs => (fs, inr (f fs)).

(** [p.exists()], [p.is_dir()], [p.rglob("*")] (the walk is read off the
    disk when the loop starts; the loop body of [plan_actions] changes
    nothing), [p.iterdir()]. *)
Definition path_exists (p : Path) : M bool := reads (fun fs => exists_on fs p).
Definition is_dir (p : Path) : M bool := reads (fun fs => is_dir_on fs p).
Definition rglob (root : Path) : M (list Path) :=
  reads (fun fs => rglob_on fs root).
Definition iterdir (p : Path) : M (list Path) := fun fs =>
  match stat fs p with
  | Some Dir => (fs, inr (iterdir_on fs p))
  | Some (File _) => (fs, inl (NotADirectoryError p))
  | None => (fs, inl (FileNotFoundError p))
  end.

(** [os.mkdir(p)] *)
Definition os_mkdir (p : Path) : M unit := fun fs =>
  if exists_on fs p then (fs, inl (FileExistsError p))
  else match stat fs (Pth.parent p) with
       | Some Dir => (<[p := Dir]> fs, inr tt)
       | Some (File _) => (fs, inl (NotADirectoryError p))
       | None => (fs, inl (FileNotFoundError p))
       end.

(** [p.mkdir(parents=False, exist_ok=True)]: a missing parent is an error;
    any other failure is forgiven when [p] is a directory. *)
Definition mkdir_exist_ok (p : Path) : M unit := fun fs =>
  match os_mkdir p fs with
  | (fs', inr _) => (fs', inr tt)
  | (_, inl (FileNotFoundError q)) => (fs, inl (FileNotFoundError q))
  | (_, inl e) => if is_dir_on fs p then (fs, inr tt) else (fs, inl e)
  end.

(** [p.mkdir(parents=True, exist_ok=True)], by recursion on the reversed
    path [rp] as pathlib recurses on [p.parent]: when the parent is missing
    it is made first, and then [p] itself. *)
Fixpoint mkdir_parents_rev (rp : list string) : M unit :=
  match rp with
  | [] => mret tt
  | _ :: rparent =>
      let p := reverse rp in
      fun fs =>
        match os_mkdir p fs with
        | (fs', inr _) => (fs', inr tt)
        | (_, inl (FileNotFoundError _)) =>
            (mkdir_parents_rev rparent;; mkdir_exist_ok p) fs
        | (_, inl e) => if is_dir_on fs p then (fs, inr tt) else (fs, inl e)
        end
  end.

Definition mkdir_parents (p : Path) : M unit := mkdir_parents_rev (reverse p).

(** Opening [p] for writing and storing [data]. *)
Definition write_file (p : Path) (data : string) : M unit := fun fs =>
  match stat fs p with
  | Some Dir => (fs, inl (IsADirectoryError p))
  | _ =>
      match stat fs (Pth.parent p) with
      | Some Dir => (<[p := File data]> fs, inr tt)
      | Some (File _) => (fs, inl (NotADirectoryError p))
      | None => (fs, inl (FileNotFoundError p))
      end
  end.

(** Opening [p] for reading. *)
Definition read_file (p : Path) : M string := fun fs =>
  match stat fs p with
  | Some (File data) => (fs, inr data)
  | Some Dir => (fs, inl (IsADirectoryError p))
  | None => (fs, inl (FileNotFoundError p))
  end.

(** Where [shutil.move] and [shutil.copy2] really write: inside [dst] when
    [dst] is a directory. *)
Definition real_dst (fs : FS) (src dst : Path) : Path :=
  if is_dir_on fs dst then dst ++ [Pth.name src] else dst.

(** [shutil.copy2(src, dst)] *)
Definition shutil_copy2 (src dst : Path) : M unit := fun fs =>
  let rd := real_dst fs src dst in
  if bool_decide (src = rd) && exists_on fs src
  then (fs, inl (ShutilError "same file"))
  else (data ← read_file src; write_file rd data) fs.

(** The tree below [src] re-rooted at [dst]. *)
Definition reroot (src dst : Path) (kv : Path * node) : Path * node :=
  (if bool_decide (src `prefix_of` kv.1) then dst ++ drop (length src) kv.1
   else kv.1, kv.2).

Definition move_tree (fs : FS) (src dst : Path) : FS :=
  list_to_map (reroot src dst <$> map_to_list fs).

(** [shutil.move(src, dst)]: a rename; a regular file replaces a regular
    file that is in its place, and a directory moved onto itself stays. *)
Definition shutil_move (src dst : Path) : M unit := fun fs =>
  let rd := real_dst fs src dst in
  if is_dir_on fs dst && bool_decide (src = dst) then (fs, inr tt)
  else if is_dir_on fs dst && exists_on fs rd
  then (fs, inl (ShutilError "destination path already exists"))
  else
    match stat fs src with
    | None => (fs, inl (FileNotFoundError src))
    | Some (File data) =>
        match stat fs (Pth.parent rd) with
        | Some Dir => (<[rd := File data]> (delete src fs), inr tt)
        | Some (File _) => (fs, inl (NotADirectoryError rd))
        | None => (fs, inl (FileNotFoundError rd))
        end
    | Some Dir =>
        if bool_decide (src `prefix_of` rd)
        then (fs, inl (ShutilError "cannot move a directory into itself"))
        else if exists_on fs rd then (fs, inl (FileExistsError rd))
        else match stat fs (Pth.parent rd) with
             | Some Dir => (move_tree fs src rd, inr tt)
             | Some (File _) => (fs, inl (NotADirectoryError rd))
             | None => (fs, inl (FileNotFoundError rd))
             end
    end.

(** ** The unique-path resolver (organize.py, lines 37-45) *)

Record MovePlan := { src : Path; dst : Path }.

#[global] Instance MovePlan_eq_dec : EqDecision MovePlan.
Proof. solve_decision. Defined.

(** [f"{stem}_{i}{suffix}"] *)
Definition numbered (stem : string) (i : N) (suffix : string) : string :=
  stem +:+ "_" +:+ Str.decimal i +:+ suffix.

(** The [for i in range(2, 10_000)] loop: [attempts] counters are left,
    the next one being [i]. *)
Fixpoint unique_loop (p : Path) (stem suffix : string) (attempts : nat)
    (i : N) : M Path :=
  match attempts with
  | O => raise (RuntimeError ("Could not find unique name for " +:+ Pth.name p))
  | S attempts' =>
      candidate ← lift (Pth.with_name p (numbered stem i suffix));
      taken ← path_exists candidate;
      if negb taken then mret candidate
      else unique_loop p stem suffix attempts' (N.succ i)
  end.

(** The length of [range(2, 10_000)]. *)
Definition max_attempts : nat := N.to_nat 9998.
Arguments max_attempts : simpl never.

Definition unique_path (p : Path) : M Path :=
  taken ← path_exists p;
  if negb taken then mret p
  else unique_loop p (Pth.stem p) (Pth.suffix p) max_attempts 2.

(** ** The plan builder (organize.py, lines 48-80) *)

(** [organized_top_folders]: the category names and the fallback name. *)
Definition organized_top_folders (rules : Rules) : gset string :=
  list_to_set (rules_folders rules).*1 ∪ {[ rules_unknown rules ]}.

(** [len(rel_parent.parts) >= 1 and rel_parent.parts[0] in organized] *)
Definition under_organized (organized : gset string) (rel_parent : Path) : bool :=
  match rel_parent with
  | top :: _ => bool_decide (top ∈ organized)
  | [] => false
  end.

Definition target_name (rename : bool) (item : Path) : string :=
  if rename then slugify (Pth.name item) else Pth.name item.

(** The path handed to [unique_path] for [item]. *)
Definition desired_target (out_root : Path) (rules : Rules) (rename : bool)
    (item : Path) : Path :=
  let bucket := extension_bucket (Pth.suffix item) rules in
  let target_dir := out_root // bucket in
  target_dir // target_name rename item.

(** The body of [for item in in_root.rglob("*")], [plans] being the list
    built so far. *)
Fixpoint plan_loop (in_root out_root : Path) (rules : Rules) (rename : bool)
    (organized : gset string) (items : list Path) (plans : list MovePlan)
    : M (list MovePlan) :=
  match items with
  | [] => mret plans
  | item :: rest =>
      let continue := plan_loop in_root out_root rules rename organized rest in
      d ← is_dir item;
      if (d : bool) then continue plans
      else if Str.starts_with_dot (Pth.name item) then continue plans
      else
        rel_parent ← lift (Pth.relative_to (Pth.parent item) in_root);
        if under_organized organized rel_parent then continue plans
        else
          target ← unique_path (desired_target out_root rules rename item);
          continue (plans ++ [{| src := item; dst := target |}])
  end.

Definition plan_actions (in_root out_root : Path) (rules : Rules)
    (rename : bool) : M (list MovePlan) :=
  let organized := organized_top_folders rules in
  items ← rglob in_root;
  plan_loop in_root out_root rules rename organized items [].

(** ** Logging, the output-folder check and the executor
    (organize.py, lines 83-110) *)

Definition log_line (p : MovePlan) : string :=
  Pth.render (src p) +:+ " -> " +:+ Pth.render (dst p).

Definition write_log (plans : list MovePlan) (log_path : Path) : M unit :=
  let lines := log_line <$> plans in
  mkdir_parents (Pth.parent log_path);;
  write_file log_path
    (Str.join_lines lines +:+
     match lines with [] => "" | _ => String "010" "" end).

Definition ensure_clean_output_folder (out_root : Path) (in_place : bool)
    : M unit :=
  if in_place then mret tt
  else
    mkdir_parents out_root;;
    entries ← iterdir out_root;
    if bool_decide ((entries : list Path) ≠ []) then
      raise (SystemExit ("Output folder is not empty: " +:+ Pth.render out_root))
    else mret tt.

Fixpoint apply_loop (in_place : bool) (plans : list MovePlan) : M unit :=
  match plans with
  | [] => mret tt
  | p :: rest =>
      mkdir_parents (Pth.parent (dst p));;
      _ ← (if in_place then shutil_move (src p) (dst p)
           else shutil_copy2 (src p) (dst p));
      apply_loop in_place rest
  end.

Definition apply (plans : list MovePlan) (in_place dry_run : bool) : M unit :=
  if dry_run then mret tt else apply_loop in_place plans.

(** ** The command (organize.py, lines 24-26 and 113-160) *)

(** The parsed command line, both paths expanded and resolved; [output] is
    [None] when the option is absent or empty. *)
Record Args := {
  root : Path;
  rules_file : Path;
  dry_run : bool;
  rename : bool;
  output : option Path
}.

(** The path of the log file: [logs_dir / f"organize_log_..._.txt"] with
    [logs_dir = Path.cwd() / "logs"]. *)
Definition log_path_of (cwd : Path) (timestamp : string)
    (in_root out_root : Path) : Path :=
  (cwd // "logs") //
  ("organize_log_" +:+ Pth.name in_root +:+ "_to_" +:+ Pth.name out_root
   +:+ "_" +:+ timestamp +:+ ".txt").

Section Command.

(** [json.load] on the text of the rules file; [None] when the text is not
    a JSON object of the shape of [Rules]. *)
Variable json_load : string -> option Rules.

(** [Path.cwd()] and the formatted [datetime.now()]. *)
Variable cwd : Path.
Variable timestamp : string.

Definition load_rules (rules_path : Path) : M Rules :=
  text ← read_file rules_path;
  match json_load text with
  | Some rules => mret rules
  | None => raise JSONDecodeError
  end.

(** [main] returns the lines it prints. *)
Definition main (args : Args) : M (list string) :=
  let in_root := root args in
  let rules_path := rules_file args in
  root_exists ← path_exists in_root;
  root_is_dir ← is_dir in_root;
  if negb root_exists || negb root_is_dir then
    raise (SystemExit ("Root folder not found or not a directory: "
                       +:+ Pth.render in_root))
  else
    rules_exists ← path_exists rules_path;
    if negb rules_exists then
      raise (SystemExit ("Rules file not found: " +:+ Pth.render rules_path))
    else
      let out_root := default in_root (output args) in
      let in_place := bool_decide (out_root = in_root) in
      rules ← load_rules rules_path;
      ensure_clean_output_folder out_root in_place;;
      let logs_dir := cwd // "logs" in
      mkdir_parents logs_dir;;
      let log_path := log_path_of cwd timestamp in_root out_root in
      plans ← plan_actions in_root out_root rules (rename args);
      write_log plans log_path;;
      apply plans in_place (dry_run args);;
      mret (("Planned actions: " +:+ Str.decimal (N.of_nat (length plans)))
            :: ("Log: " +:+ Pth.render log_path)
            :: (match output args with
                | Some _ => "Mode: COPY to output folder ("
                            +:+ Pth.render out_root +:+ ")"
                | None => "Mode: IN-PLACE move"
                end)
            :: (if dry_run args
                then ["Dry-run only. Re-run without --dry-run to apply."]
                else [])).

End Command.

(** ** Vocabulary of the statements *)

(** A string that is one ordinary path component: not empty, not a dot or
    two, and free of slashes.  Such a string is a path of one component. *)
Definition plain_name (s : string) : Prop :=
  s ≠ "" ∧ s ≠ "." ∧ s ≠ ".." ∧ Pth.has_slash s = false.

#[global] Instance plain_name_dec (s : string) : Decision (plain_name s).
Proof. unfold plain_name. apply _. Defined.

(** [item.parent.relative_to(in_root)] for an entry below [in_root]. *)
Definition rel_parent_of (in_root item : Path) : Path :=
  drop (length in_root) (Pth.parent item).

Definition hidden (item : Path) : bool := Str.starts_with_dot (Pth.name item).

(** The three filters of [plan_loop] (lines 62-71): the entry is no
    directory, its own name is not hidden, and its parent directory is not
    inside an organized top-level folder. *)
Definition survives (rules : Rules) (in_root : Path) (fs : FS) (item : Path)
    : bool :=
  negb (is_dir_on fs item) && negb (hidden item)
  && negb (under_organized (organized_top_folders rules)
             (rel_parent_of in_root item)).

(** The filters read on the entry's own relative path, the third one
    testing the first component of [item.relative_to(in_root)]. *)
Definition survives_by_own_path (rules : Rules) (in_root : Path) (fs : FS)
    (item : Path) : bool :=
  negb (is_dir_on fs item) && negb (hidden item)
  && negb (under_organized (organized_top_folders rules)
             (drop (length in_root) item)).

(** An action that leaves the disk as it found it, whatever it returns or
    raises. *)
Definition read_only {A} (m : M A) : Prop := ∀ fs, (m fs).1 = fs.

(** The plan for a list of files, one resolution after the other; the
    first resolution that fails is the failure of the whole. *)
Fixpoint resolve_all (fs : FS) (out_root : Path) (rules : Rules)
    (rename : bool) (items : list Path) : exn + list MovePlan :=
  match items with
  | [] => inr []
  | item :: rest =>
      match (unique_path (desired_target out_root rules rename item) fs).2 with
      | inl e => inl e
      | inr target =>
          match resolve_all fs out_root rules rename rest with
          | inl e => inl e
          | inr plans => inr ({| src := item; dst := target |} :: plans)
          end
      end
  end.

(** The [i]-th numbered sibling that [unique_path] tries for [p]. *)
Definition candidate (p : Path) (i : N) : Path :=
  Pth.parent p ++ [numbered (Pth.stem p) i (Pth.suffix p)].

(** A path as the file system hands it out: every component is a non-empty
    string without a slash. *)
Definition wf_path (p : Path) : Prop :=
  Forall (fun c => c ≠ "" ∧ Pth.has_slash c = false) p.

#[global] Instance wf_path_dec (p : Path) : Decision (wf_path p).
Proof. unfold wf_path. apply _. Defined.

(** [nm.endswith(".")]: the names whose last dot opens no suffix although
    it is not their first character. *)
Fixpoint ends_with_dot (s : string) : bool :=
  match s with
  | EmptyString => false
  | String c EmptyString => Ascii.eqb c "."
  | String _ s' => ends_with_dot s'
  end.

(** Every regular file below [in_root] has a plain target name. *)
Definition plain_targets (rename : bool) (in_root : Path) (fs : FS) : Prop :=
  map_Forall (fun item n => n ≠ Dir -> strict prefix in_root item ->
                            plain_name (target_name rename item)) fs.

#[global] Instance plain_targets_dec (rename : bool) (in_root : Path) (fs : FS) :
  Decision (plain_targets rename in_root fs).
Proof. unfold plain_targets. apply _. Defined.

(** Every regular file of [fs'] is a regular file of [fs], with its text. *)
Definition files_within (fs' fs : FS) : Prop :=
  ∀ q data, fs' !! q = Some (File data) -> fs !! q = Some (File data).

(** [p] is a regular file. *)
Definition is_file_on (fs : FS) (p : Path) : bool :=
  match stat fs p with
  | Some (File _) => true
  | _ => false
  end.

(** A planned move that the executor can carry out on [fs]: the
    destination is a name in a folder directly below [out_root], it is not
    on disk, that folder is no regular file, and the source is a regular
    file. *)
Definition ready (out_root : Path) (fs : FS) (pl : MovePlan) : Prop :=
  (∃ b n, dst pl = out_root ++ [b; n])
  ∧ src pl ≠ []
  ∧ (∃ data, fs !! src pl = Some (File data))
  ∧ fs !! dst pl = None
  ∧ is_file_on fs (Pth.parent (dst pl)) = false.

(** [fs'] is [fs] with, at most, new directories on the way to [p]. *)
Definition grown_towards (p : Path) (fs fs' : FS) : Prop :=
  ∀ q, fs' !! q = fs !! q
       ∨ (fs !! q = None ∧ fs' !! q = Some Dir ∧ q `prefix_of` p).

(** The text of a file that holds [lines], each followed by a newline. *)
Fixpoint unlines (lines : list string) : string :=
  match lines with
  | [] => ""
  | w :: ws => w +:+ String "010" (unlines ws)
  end.

(** The ways in which a run is refused before it starts (section 6 of the
    specification): the source root is missing or is no directory, the
    rules file is missing, or a separate output root is a directory that
    already has an entry. *)
Inductive fatal_precondition (args : Args) (fs : FS) : Prop :=
  | root_missing :
      exists_on fs (root args) = false -> fatal_precondition args fs
  | root_not_a_directory :
      is_dir_on fs (root args) = false -> fatal_precondition args fs
  | rules_missing :
      exists_on fs (rules_file args) = false -> fatal_precondition args fs
  | output_not_empty (out : Path) :
      output args = Some out -> out ≠ root args ->
      is_dir_on fs out = true -> iterdir_on fs out ≠ [] ->
      fatal_precondition args fs.

(** ** Concrete disks and rules used in the examples *)

Module Scenario.

(** The rules of the scenarios of section 8: .jpg to Images, .txt to Docs,
    everything else to Other. *)
Definition rules : Rules :=
  {| folders := Some [("Images", [".jpg"]); ("Docs", [".txt"])];
     unknown_folder := Some "Other" |}.

Definition inbox : Path := ["inbox"].

(** a.jpg, notes.txt, .hidden and the folder Images with old.jpg. *)
Definition disk : FS :=
  list_to_map
    [ (["inbox"], Dir);
      (["inbox"; "a.jpg"], File "a");
      (["inbox"; "notes.txt"], File "n");
      (["inbox"; ".hidden"], File "h");
      (["inbox"; "Images"], Dir);
      (["inbox"; "Images"; "old.jpg"], File "o") ].

(** Two files of the same name in two folders. *)
Definition disk_same_name : FS :=
  list_to_map
    [ (["inbox"], Dir);
      (["inbox"; "a"], Dir);
      (["inbox"; "a"; "x.txt"], File "first");
      (["inbox"; "b"], Dir);
      (["inbox"; "b"; "x.txt"], File "second") ].

(** A regular file that is called like the fallback category. *)
Definition disk_named_like_category : FS :=
  list_to_map [ (["inbox"], Dir); (["inbox"; "Other"], File "data") ].

(** A category that names a nested folder. *)
Definition rules_nested : Rules :=
  {| folders := Some [("Docs/Text", [".txt"])]; unknown_folder := None |}.

Definition disk_one_text : FS :=
  list_to_map [ (["inbox"], Dir); (["inbox"; "x.txt"], File "text") ].

(** A visible file inside a hidden directory. *)
Definition disk_hidden_dir : FS :=
  list_to_map
    [ (["inbox"], Dir);
      (["inbox"; ".cache"], Dir);
      (["inbox"; ".cache"; "data.txt"], File "d") ].

(** The desired name and its first numbered sibling are taken. *)
Definition disk_taken : FS :=
  list_to_map
    [ (["out"], Dir);
      (["out"; "Docs"], Dir);
      (["out"; "Docs"; "x.txt"], File "1");
      (["out"; "Docs"; "x_2.txt"], File "2") ].

(** A source, a rules file, and an output folder that is in use. *)
Definition disk_output_in_use : FS :=
  list_to_map
    [ (["inbox"], Dir);
      (["inbox"; "a.jpg"], File "a");
      (["rules.json"], File "{}");
      (["out"], Dir);
      (["out"; "old"], File "x") ].

(** Two files without an extension (section 8). *)
Definition disk_no_extension : FS :=
  list_to_map
    [ (["inbox"], Dir);
      (["inbox"; "README"], File "r");
      (["inbox"; "LICENSE"], File "l") ].

(** A file whose slug is a single dot. *)
Definition disk_dot_slug : FS :=
  list_to_map [ (["inbox"], Dir); (["inbox"; "(.)"], File "data") ].

Definition args_copy : Args :=
  {| root := ["inbox"]; rules_file := ["rules.json"]; dry_run := false;
     rename := false; output := Some ["out"] |}.

End Scenario.

(** * Properties *)

(** Settles a decidable statement about concrete data by evaluation. *)
Ltac by_evaluation := apply (bool_decide_unpack _); vm_compute; exact I.

(** ** Strings *)

Section StringFacts.

Local Abbreviation chars := list_ascii_of_string.

Lemma chars_append (s t : string) : chars (s +:+ t) = chars s ++ chars t.
Proof. induction s as [|c s IH]; simpl; [done|]. by rewrite IH. Qed.

Lemma chars_inj (s t : string) : chars s = chars t -> s = t.
Proof.
  intros H. rewrite <- (string_of_list_ascii_of_string s), H.
  apply string_of_list_ascii_of_string.
Qed.

Lemma lstrip_chars (s : string) :
  chars (Str.lstrip s) = SlugSpec.drop_spaces (chars s).
Proof.
  induction s as [|c s IH]; simpl; [done|].
  destruct (Str.is_space c); [exact IH | done].
Qed.

Lemma drop_spaces_snoc (l : list ascii) (c : ascii) :
  SlugSpec.drop_spaces (l ++ [c]) =
  match SlugSpec.drop_spaces l with
  | [] => if Str.is_space c then [] else [c]
  | r => r ++ [c]
  end.
Proof.
  induction l as [|d l IH]; simpl; [done|].
  destruct (Str.is_space d); [exact IH | done].
Qed.

Lemma rstrip_chars (s : string) :
  chars (Str.rstrip s) = reverse (SlugSpec.drop_spaces (reverse (chars s))).
Proof.
  induction s as [|c s IH]; simpl; [done|].
  rewrite reverse_cons, drop_spaces_snoc.
  destruct (SlugSpec.drop_spaces (reverse (chars s))) as [|d r] eqn:E.
  - rewrite reverse_nil in IH.
    destruct (Str.rstrip s); [|discriminate IH].
    by destruct (Str.is_space c).
  - rewrite reverse_app, reverse_singleton. simpl.
    destruct (Str.rstrip s) as [|e t] eqn:Et.
    + simpl in IH. symmetry in IH.
      apply (f_equal length) in IH. rewrite length_reverse in IH.
      discriminate IH.
    + by rewrite <- IH.
Qed.

Lemma strip_chars (s : string) :
  chars (Str.strip s) = SlugSpec.trim (chars s).
Proof. unfold Str.strip, SlugSpec.trim. by rewrite rstrip_chars, lstrip_chars. Qed.

Lemma replace_space_chars (s : string) :
  chars (Str.replace_char " " "_" s) = SlugSpec.space_to_underscore <$> chars s.
Proof. induction s as [|c s IH]; simpl; [done|]. by rewrite IH. Qed.

(** Replacing the runs of a class by nothing keeps the other characters. *)
Lemma re_sub_delete_chars (keep : ascii -> bool) (b : bool) (s : string) :
  chars (Str.re_sub_runs (fun c => negb (keep c)) "" b s)
  = List.filter keep (chars s).
Proof.
  revert b. induction s as [|c s IH]; intros b; simpl; [done|].
  destruct (keep c); simpl.
  - by rewrite IH.
  - destruct b; simpl; apply IH.
Qed.

(** Replacing the runs of underscores by one underscore: outside a run the
    scan agrees with [collapse]; inside a run it yields what [collapse]
    leaves after the underscore already written. *)
Lemma re_sub_collapse_chars (s : string) :
  chars (Str.re_sub_runs is_underscore "_" false s) = SlugSpec.collapse (chars s)
  ∧ "_"%char :: chars (Str.re_sub_runs is_underscore "_" true s)
    = SlugSpec.collapse ("_"%char :: chars s).
Proof.
  induction s as [|c s [IH1 IH2]]; [done|].
  cbn [Str.re_sub_runs chars].
  destruct (is_underscore c) eqn:Ec.
  - apply Ascii.eqb_eq in Ec as ->. split.
    + exact IH2.
    + rewrite IH2. reflexivity.
  - cbn [chars]. rewrite IH1. split.
    + cbn [SlugSpec.collapse]. rewrite Ec.
      by destruct (chars s).
    + cbn [SlugSpec.collapse]. rewrite Ec, andb_false_r.
      by destruct (chars s).
Qed.

Lemma slugify_refines (x : string) : slugify x = SlugSpec.spec_slugify x.
Proof.
  unfold slugify, SlugSpec.spec_slugify, Str.re_sub.
  set (s := Str.re_sub_runs is_underscore "_" false _).
  assert (chars s = SlugSpec.collapse (List.filter slug_char
    (SlugSpec.space_to_underscore <$> SlugSpec.trim (chars x)))) as Hs.
  { unfold s. rewrite (proj1 (re_sub_collapse_chars _)).
    by rewrite re_sub_delete_chars, replace_space_chars, strip_chars. }
  rewrite <- Hs. destruct s; [done|].
  by rewrite string_of_list_ascii_of_string.
Qed.

Lemma collapse_sublist (P : ascii -> Prop) (l : list ascii) :
  Forall P l -> Forall P (SlugSpec.collapse l).
Proof.
  induction 1 as [|c l Hc Hl IH]; [constructor|].
  cbn [SlugSpec.collapse]. destruct l as [|d l]; [by constructor|].
  destruct (is_underscore c && is_underscore d); [exact IH | by constructor].
Qed.

Lemma collapse_head (c : ascii) (l : list ascii) :
  ∃ l', SlugSpec.collapse (c :: l) = c :: l'.
Proof.
  revert c. induction l as [|d l IH]; intros c; [by exists []|].
  cbn [SlugSpec.collapse].
  destruct (is_underscore c && is_underscore d) eqn:E.
  - apply andb_true_iff in E as [Ec Ed].
    apply Ascii.eqb_eq in Ec, Ed. subst. apply IH.
  - eauto.
Qed.

Lemma collapse_no_double (l : list ascii) :
  SlugSpec.no_double_underscore (SlugSpec.collapse l).
Proof.
  induction l as [|c l IH]; [done|].
  cbn [SlugSpec.collapse]. destruct l as [|d l]; [done|].
  destruct (is_underscore c && is_underscore d) eqn:E; [exact IH|].
  destruct (collapse_head d l) as [l' Hl']. rewrite Hl' in IH |- *.
  cbn [SlugSpec.no_double_underscore]. split; [|exact IH].
  rewrite E. auto.
Qed.

Lemma collapse_fixed (l : list ascii) :
  SlugSpec.no_double_underscore l -> SlugSpec.collapse l = l.
Proof.
  induction l as [|c l IH]; [done|].
  cbn [SlugSpec.no_double_underscore SlugSpec.collapse].
  destruct l as [|d l]; [done|]. intros [Hcd Hl].
  destruct (is_underscore c && is_underscore d); [by destruct Hcd|].
  by rewrite IH.
Qed.

Lemma slug_char_not_space (c : ascii) :
  slug_char c = true -> Str.is_space c = false ∧ c ≠ " "%char.
Proof.
  destruct c as [[] [] [] [] [] [] [] []]; vm_compute; intros; split;
    congruence.
Qed.

Lemma filter_fixed (l : list ascii) :
  Forall (fun c => slug_char c = true) l -> List.filter slug_char l = l.
Proof.
  induction 1 as [|c l Hc Hl IH]; [done|]. simpl. by rewrite Hc, IH.
Qed.

Lemma spaces_fixed (l : list ascii) :
  Forall (fun c => slug_char c = true) l ->
  SlugSpec.space_to_underscore <$> l = l.
Proof.
  induction 1 as [|c l Hc Hl IH]; [done|]. cbn. rewrite IH.
  unfold SlugSpec.space_to_underscore.
  destruct (slug_char_not_space c Hc) as [_ Hsp].
  destruct (Ascii.eqb_spec c " "); [done|done].
Qed.

Lemma drop_spaces_fixed (l : list ascii) :
  Forall (fun c => slug_char c = true) l -> SlugSpec.drop_spaces l = l.
Proof.
  destruct 1 as [|c l Hc Hl]; [done|]. simpl.
  by destruct (slug_char_not_space c Hc) as [-> _].
Qed.

Lemma trim_fixed (l : list ascii) :
  Forall (fun c => slug_char c = true) l -> SlugSpec.trim l = l.
Proof.
  intros Hl. unfold SlugSpec.trim.
  rewrite (drop_spaces_fixed l Hl), drop_spaces_fixed.
  - apply reverse_involutive.
  - by apply Forall_reverse.
Qed.

(** What every slug looks like. *)
Lemma slugify_shape (x : string) :
  Forall (fun c => slug_char c = true) (chars (slugify x))
  ∧ SlugSpec.no_double_underscore (chars (slugify x))
  ∧ slugify x ≠ "".
Proof.
  rewrite slugify_refines. unfold SlugSpec.spec_slugify.
  set (l := List.filter slug_char _).
  assert (Forall (fun c => slug_char c = true) (SlugSpec.collapse l)) as Hall.
  { apply collapse_sublist. unfold l. apply Forall_forall.
    intros c Hc. apply list_elem_of_In, filter_In in Hc. tauto. }
  pose proof (collapse_no_double l) as Hnd.
  destruct (SlugSpec.collapse l) as [|c k] eqn:E.
  - split; [|split; [|done]].
    + repeat constructor.
    + cbn. repeat split; by vm_compute.
  - rewrite list_ascii_of_string_of_list_ascii. split; [done|]. split; [done|].
    cbn. discriminate.
Qed.

End StringFacts.

(** ** The slugifier *)

(** C7.  [slugify] is the pipeline of section 4.1: trim the whitespace at
    both ends, turn spaces into underscores, keep only ASCII letters,
    digits, dots, underscores and hyphens, collapse neighbouring
    underscores, and answer "file" when nothing is left.  Hence every slug
    consists of allowed characters, has no two underscores in a row and is
    not empty; and "My Report (final).pdf" becomes "My_Report_final.pdf". *)
Theorem slugify_spec :
  (∀ x, slugify x = SlugSpec.spec_slugify x)
  ∧ (∀ x, Forall (fun c => slug_char c = true) (list_ascii_of_string (slugify x))
          ∧ SlugSpec.no_double_underscore (list_ascii_of_string (slugify x))
          ∧ slugify x ≠ "")
  ∧ slugify "   " = "file"
  ∧ slugify "My Report (final).pdf" = "My_Report_final.pdf".
Proof.
  split; [exact slugify_refines|].
  split; [exact slugify_shape|].
  split; reflexivity.
Qed.

(** C8.  [slugify] is idempotent: slugifying a slug changes nothing. *)
Theorem slugify_idempotent (x : string) : slugify (slugify x) = slugify x.
Proof.
  destruct (slugify_shape x) as (Hall & Hnd & Hne).
  rewrite (slugify_refines (slugify x)). unfold SlugSpec.spec_slugify.
  rewrite (trim_fixed _ Hall), (spaces_fixed _ Hall), (filter_fixed _ Hall),
    (collapse_fixed _ Hnd).
  destruct (list_ascii_of_string (slugify x)) as [|c l] eqn:E.
  - destruct Hne. apply chars_inj. by rewrite E.
  - rewrite <- E. apply string_of_list_ascii_of_string.
Qed.

(** ** The bucket resolver *)

Lemma bucket_loop_first ext pre folder exts post fallback :
  ext ∈ (Str.lower <$> exts) ->
  Forall (fun fe => ext ∉ (Str.lower <$> fe.2)) pre ->
  bucket_loop ext (pre ++ (folder, exts) :: post) fallback = folder.
Proof.
  intros Hin Hpre. induction Hpre as [|[f e] pre Hfe Hpre IH]; simpl.
  - by rewrite bool_decide_eq_true_2.
  - by rewrite bool_decide_eq_false_2.
Qed.

Lemma bucket_loop_none ext items fallback :
  Forall (fun fe => ext ∉ (Str.lower <$> fe.2)) items ->
  bucket_loop ext items fallback = fallback.
Proof.
  induction 1 as [|[f e] items Hfe Hitems IH]; simpl; [done|].
  by rewrite bool_decide_eq_false_2.
Qed.

(** The bucket is always a member of the organized-folder set. *)
Lemma bucket_loop_elem ext items fallback :
  bucket_loop ext items fallback ∈ items.*1 ∨
  bucket_loop ext items fallback = fallback.
Proof.
  induction items as [|[f e] items IH]; simpl; [by right|].
  case_bool_decide.
  - left. set_solver.
  - destruct IH; [left; set_solver | by right].
Qed.

Lemma extension_bucket_organized ext rules :
  extension_bucket ext rules ∈ organized_top_folders rules.
Proof.
  unfold extension_bucket, organized_top_folders.
  destruct (bucket_loop_elem (Str.lower ext) (rules_folders rules)
              (rules_unknown rules)) as [H | ->]; set_solver.
Qed.

(** C6.  [extension_bucket] lower-cases the extension and walks the
    categories in their order, comparing with each category's extensions
    lower-cased: the first category that lists the extension is the answer,
    and when none does the answer is the configured fallback name, "Other"
    when the rules name none. *)
Theorem extension_bucket_spec (ext : string) (rules : Rules) :
  (∀ pre folder exts post,
      default [] (folders rules) = pre ++ (folder, exts) :: post ->
      Str.lower ext ∈ (Str.lower <$> exts) ->
      Forall (fun fe => Str.lower ext ∉ (Str.lower <$> fe.2)) pre ->
      extension_bucket ext rules = folder)
  ∧ (Forall (fun fe => Str.lower ext ∉ (Str.lower <$> fe.2))
       (default [] (folders rules)) ->
     extension_bucket ext rules = default "Other" (unknown_folder rules)).
Proof.
  unfold extension_bucket, rules_folders, rules_unknown. split.
  - intros pre folder exts post -> Hin Hpre. by apply bucket_loop_first.
  - apply bucket_loop_none.
Qed.

(** ".JPG" is an Images extension whatever its case; ".zip" is none. *)
Lemma extension_bucket_examples :
  extension_bucket ".JPG" Scenario.rules = "Images"
  ∧ extension_bucket ".zip" Scenario.rules = "Other"
  ∧ extension_bucket ".zip" {| folders := None; unknown_folder := None |}
    = "Other".
Proof.
  split; [|split].
  - apply (proj1 (extension_bucket_spec ".JPG" Scenario.rules)
             [] "Images" [".jpg"] [("Docs", [".txt"])]).
    + reflexivity.
    + by_evaluation.
    + constructor.
  - apply (proj2 (extension_bucket_spec ".zip" Scenario.rules)).
    by_evaluation.
  - apply (proj2 (extension_bucket_spec ".zip"
                    {| folders := None; unknown_folder := None |})).
    constructor.
Defined.

(** ** The monad: running a bind, and read-only actions *)

Lemma run_bind {A B} (m : M A) (f : A -> M B) (fs : FS) :
  (m ≫= f) fs = match m fs with
                | (fs', inr x) => f x fs'
                | (fs', inl e) => (fs', inl e)
                end.
Proof. reflexivity. Qed.

Lemma read_only_ret {A} (x : A) : read_only (mret x).
Proof. by intros fs. Qed.

Lemma read_only_raise {A} (e : exn) : read_only (@raise A e).
Proof. by intros fs. Qed.

Lemma read_only_lift {A} (r : exn + A) : read_only (lift r).
Proof. by intros fs. Qed.

Lemma read_only_reads {A} (f : FS -> A) : read_only (reads f).
Proof. by intros fs. Qed.

Lemma read_only_bind {A B} (m : M A) (f : A -> M B) :
  read_only m -> (∀ x, read_only (f x)) -> read_only (m ≫= f).
Proof.
  intros Hm Hf fs. rewrite run_bind. specialize (Hm fs).
  destruct (m fs) as [fs' [e|x]]; simpl in *; subst; [done|]. apply Hf.
Qed.

Lemma read_only_if {A} (b : bool) (m1 m2 : M A) :
  read_only m1 -> read_only m2 -> read_only (if b then m1 else m2).
Proof. by destruct b. Qed.

Create HintDb read_only discriminated.
#[local] Hint Resolve read_only_ret read_only_raise read_only_lift
  read_only_reads read_only_if : read_only.
#[local] Hint Extern 1 (read_only (_ ≫= _)) =>
  apply read_only_bind; [|intros ?] : read_only.
#[local] Hint Extern 1 (read_only (path_exists _)) =>
  apply read_only_reads : read_only.
#[local] Hint Extern 1 (read_only (is_dir _)) =>
  apply read_only_reads : read_only.
#[local] Hint Extern 1 (read_only (rglob _)) =>
  apply read_only_reads : read_only.

Lemma unique_loop_read_only p stem suffix attempts i :
  read_only (unique_loop p stem suffix attempts i).
Proof.
  revert i. induction attempts as [|n IH]; intros i; simpl;
    auto 10 with read_only.
Qed.

Lemma unique_path_read_only p : read_only (unique_path p).
Proof.
  unfold unique_path. pose proof unique_loop_read_only.
  auto 10 with read_only.
Qed.

Lemma plan_loop_read_only in_root out_root rules rename organized items plans :
  read_only (plan_loop in_root out_root rules rename organized items plans).
Proof.
  revert plans. induction items as [|item rest IH]; intros plans; simpl.
  - auto with read_only.
  - pose proof unique_path_read_only. auto 12 with read_only.
Qed.

Lemma plan_actions_read_only in_root out_root rules rename :
  read_only (plan_actions in_root out_root rules rename).
Proof.
  unfold plan_actions. pose proof plan_loop_read_only.
  auto with read_only.
Qed.

(** C9.  Building the plan changes nothing on disk: whatever the roots,
    the rules and the rename flag, and whether a plan is returned or an
    exception is raised, the file system after [plan_actions] is the file
    system before it; the same holds of each call of [unique_path], the
    only helper that looks at the disk ([extension_bucket] and [slugify]
    are functions of their arguments alone). *)
Theorem plan_actions_no_mutation :
  (∀ in_root out_root rules rename (fs : FS),
      (plan_actions in_root out_root rules rename fs).1 = fs)
  ∧ (∀ p (fs : FS), (unique_path p fs).1 = fs).
Proof.
  split.
  - intros in_root out_root rules rename. apply plan_actions_read_only.
  - intros p. apply unique_path_read_only.
Qed.

(** ** The unique-path resolver *)

Lemma has_slash_append (s t : string) :
  Pth.has_slash (s +:+ t) = Pth.has_slash s || Pth.has_slash t.
Proof.
  induction s as [|c s IH]; simpl; [done|]. rewrite IH. apply orb_assoc.
Qed.

Lemma has_slash_substring (n m : nat) (s : string) :
  Pth.has_slash s = false -> Pth.has_slash (substring n m s) = false.
Proof.
  revert n m. induction s as [|c s IH]; intros n m Hs.
  - by destruct n, m.
  - simpl in Hs. apply orb_false_iff in Hs as [Hc Hs].
    destruct n as [|n]; simpl.
    + destruct m as [|m]; simpl; [done|]. by rewrite Hc, IH.
    + by apply IH.
Qed.

Lemma has_slash_decimal (i : N) : Pth.has_slash (Str.decimal i) = false.
Proof.
  unfold Str.decimal.
  assert (∀ d, Pth.has_slash (NilEmpty.string_of_uint d) = false) as H.
  { induction d; simpl; done. }
  destruct (N.to_uint i); first done; apply H.
Qed.

Lemma has_slash_stem (nm : string) :
  Pth.has_slash nm = false -> Pth.has_slash (Pth.stem_of nm) = false.
Proof.
  intros H. unfold Pth.stem_of. destruct (Pth.suffix_start nm); [|done].
  by apply has_slash_substring.
Qed.

Lemma has_slash_suffix (nm : string) :
  Pth.has_slash nm = false -> Pth.has_slash (Pth.suffix_of nm) = false.
Proof.
  intros H. unfold Pth.suffix_of. destruct (Pth.suffix_start nm); [|done].
  by apply has_slash_substring.
Qed.

Lemma numbered_valid (stem : string) (i : N) (suffix : string) :
  Pth.has_slash stem = false -> Pth.has_slash suffix = false ->
  numbered stem i suffix ≠ "" ∧ numbered stem i suffix ≠ "."
  ∧ Pth.has_slash (numbered stem i suffix) = false.
Proof.
  intros Hst Hsu. unfold numbered. repeat split.
  - destruct stem; discriminate.
  - destruct stem as [|c [|d stem]]; discriminate.
  - by rewrite !has_slash_append, Hst, Hsu, has_slash_decimal.
Qed.

Lemma wf_path_name (p : Path) :
  wf_path p -> p ≠ [] ->
  Pth.name p ≠ "" ∧ Pth.has_slash (Pth.name p) = false.
Proof.
  intros Hwf Hp. unfold Pth.name.
  destruct (last p) as [c|] eqn:E.
  - apply last_Some in E as [l' ->]. unfold wf_path in Hwf.
    rewrite Forall_forall in Hwf. apply (Hwf c). set_solver.
  - by apply last_None in E.
Qed.

Lemma with_name_candidate (p : Path) (i : N) :
  wf_path p -> p ≠ [] ->
  Pth.with_name p (numbered (Pth.stem p) i (Pth.suffix p))
  = inr (candidate p i).
Proof.
  intros Hwf Hp. destruct (wf_path_name p Hwf Hp) as [Hne Hsl].
  destruct (numbered_valid (Pth.stem p) i (Pth.suffix p)) as (H1 & H2 & H3).
  { by apply has_slash_stem. } { by apply has_slash_suffix. }
  unfold Pth.with_name. rewrite bool_decide_eq_false_2 by done.
  rewrite (bool_decide_eq_false_2 _ H1), (bool_decide_eq_false_2 _ H2), H3.
  reflexivity.
Qed.

Section UniqueLoop.

Variable fs : FS.
Variable p : Path.
Hypothesis Hwf : wf_path p.
Hypothesis Hname : p ≠ [].

Local Abbreviation loop := (unique_loop p (Pth.stem p) (Pth.suffix p)).
Local Abbreviation taken := (fun j => exists_on fs (candidate p j) = true).

Lemma unique_loop_step (n : nat) (i : N) :
  loop (S n) i fs =
  if exists_on fs (candidate p i) then loop n (N.succ i) fs
  else (fs, inr (candidate p i)).
Proof.
  cbn [unique_loop]. rewrite run_bind. unfold lift.
  rewrite (with_name_candidate p i Hwf Hname).
  rewrite run_bind. unfold path_exists, reads.
  by destruct (exists_on fs (candidate p i)).
Qed.

(** The loop returns the first free candidate of its range. *)
Lemma unique_loop_found (n : nat) (i k : N) :
  (i <= k < i + N.of_nat n)%N ->
  exists_on fs (candidate p k) = false ->
  (∀ j, (i <= j < k)%N -> taken j) ->
  loop n i fs = (fs, inr (candidate p k)).
Proof.
  revert i. induction n as [|n IH]; intros i Hk Hfree Htaken; [lia|].
  rewrite unique_loop_step. destruct (decide (k = i)) as [->|Hki].
  - by rewrite Hfree.
  - rewrite Htaken by lia. apply IH; [lia|done|].
    intros j Hj. apply Htaken. lia.
Qed.

(** With the whole range taken the loop raises its resolution error. *)
Lemma unique_loop_exhausted (n : nat) (i : N) :
  (∀ j, (i <= j < i + N.of_nat n)%N -> taken j) ->
  loop n i fs =
  (fs, inl (RuntimeError ("Could not find unique name for " +:+ Pth.name p))).
Proof.
  revert i. induction n as [|n IH]; intros i Htaken; [done|].
  rewrite unique_loop_step, Htaken by lia. apply IH.
  intros j Hj. apply Htaken. lia.
Qed.

(** The loop raises only when the whole range is taken. *)
Lemma unique_loop_raises (n : nat) (i : N) (fs' : FS) (e : exn) :
  loop n i fs = (fs', inl e) ->
  ∀ j, (i <= j < i + N.of_nat n)%N -> taken j.
Proof.
  revert i. induction n as [|n IH]; intros i Hrun j Hj; [lia|].
  rewrite unique_loop_step in Hrun.
  destruct (exists_on fs (candidate p i)) eqn:Ei; [|discriminate Hrun].
  destruct (decide (j = i)) as [->|Hji]; [done|].
  apply (IH _ Hrun). lia.
Qed.

(** What the loop returns is a free candidate of its range, with every
    earlier one taken. *)
Lemma unique_loop_returns (n : nat) (i : N) (fs' : FS) (t : Path) :
  loop n i fs = (fs', inr t) ->
  ∃ k, (i <= k < i + N.of_nat n)%N ∧ t = candidate p k
       ∧ exists_on fs t = false ∧ ∀ j, (i <= j < k)%N -> taken j.
Proof.
  revert i. induction n as [|n IH]; intros i Hrun; [discriminate Hrun|].
  rewrite unique_loop_step in Hrun.
  destruct (exists_on fs (candidate p i)) eqn:Ei.
  - destruct (IH _ Hrun) as (k & Hk & -> & Hfree & Htaken).
    exists k. repeat split; [lia|lia|done|].
    intros j Hj. destruct (decide (j = i)) as [->|Hji]; [done|].
    apply Htaken. lia.
  - injection Hrun as _ <-. exists i. repeat split; [lia|lia|done|].
    intros j Hj. lia.
Qed.

End UniqueLoop.

Lemma unique_path_absent (fs : FS) (p : Path) :
  exists_on fs p = false -> unique_path p fs = (fs, inr p).
Proof.
  intros H. unfold unique_path. rewrite run_bind.
  unfold path_exists, reads. by rewrite H.
Qed.

Lemma unique_path_present (fs : FS) (p : Path) :
  exists_on fs p = true ->
  unique_path p fs =
  unique_loop p (Pth.stem p) (Pth.suffix p) max_attempts 2 fs.
Proof.
  intros H. unfold unique_path. rewrite run_bind.
  unfold path_exists, reads. by rewrite H.
Qed.

Lemma max_attempts_range : (2 + N.of_nat max_attempts = 10000)%N.
Proof. reflexivity. Qed.

(** C3, as the code has it.  For a candidate that has a name, that is any
    well-formed path but the root: [unique_path] returns the candidate
    itself when it is not on disk; when it is, the answer is the first of
    the siblings stem_2suffix, stem_3suffix, ... that is not on disk; and
    the resolution error is raised exactly when the candidate and all of
    its siblings numbered 2 to 9999 are on disk. *)
Theorem unique_path_spec (fs : FS) (p : Path) :
  wf_path p -> p ≠ [] ->
  (exists_on fs p = false -> unique_path p fs = (fs, inr p))
  ∧ (exists_on fs p = true ->
     ∀ i, (2 <= i < 10000)%N ->
          exists_on fs (candidate p i) = false ->
          (∀ j, (2 <= j < i)%N -> exists_on fs (candidate p j) = true) ->
          unique_path p fs = (fs, inr (candidate p i)))
  ∧ ((∃ msg, unique_path p fs = (fs, inl (RuntimeError msg)))
     <-> exists_on fs p = true
         ∧ ∀ j, (2 <= j < 10000)%N -> exists_on fs (candidate p j) = true)
  ∧ (∀ i, candidate p i =
          Pth.parent p ++
          [Pth.stem p +:+ "_" +:+ Str.decimal i +:+ Pth.suffix p])
  ∧ N.of_nat max_attempts = 9998%N.
Proof.
  intros Hwf Hname. split; [apply unique_path_absent|].
  split; [|split; [|split; [|reflexivity]]].
  - intros Hp i Hi Hfree Htaken. rewrite (unique_path_present _ _ Hp).
    apply unique_loop_found;
      [done | done | rewrite max_attempts_range; lia | done | done].
  - split.
    + intros [msg Hrun]. destruct (exists_on fs p) eqn:Hp.
      * split; [done|]. rewrite (unique_path_present _ _ Hp) in Hrun.
        intros j Hj. apply (unique_loop_raises fs p Hwf Hname _ _ _ _ Hrun).
        rewrite max_attempts_range. lia.
      * by rewrite (unique_path_absent _ _ Hp) in Hrun.
    + intros [Hp Htaken]. eexists. rewrite (unique_path_present _ _ Hp).
      apply unique_loop_exhausted; [done | done |].
      intros j Hj. apply Htaken. rewrite max_attempts_range in Hj. lia.
  - reflexivity.
Qed.

(** C3 as it was stated fails for the root directory, which has no name:
    it is on disk and the sibling numbered 2 is free, yet [unique_path]
    neither returns that sibling nor raises its resolution error; the
    renaming itself is refused. *)
Lemma unique_path_of_root :
  exists_on ∅ [] = true
  ∧ exists_on ∅ (candidate [] 2) = false
  ∧ (unique_path [] ∅).2 = inl (ValueError "empty name").
Proof. repeat split; vm_compute; reflexivity. Qed.

(** x.txt and x_2.txt are taken: the answer is x_3.txt. *)
Lemma unique_path_third_name :
  candidate ["out"; "Docs"; "x.txt"] 3 = ["out"; "Docs"; "x_3.txt"]
  ∧ unique_path ["out"; "Docs"; "x.txt"] Scenario.disk_taken
    = (Scenario.disk_taken, inr (candidate ["out"; "Docs"; "x.txt"] 3)).
Proof.
  split; [reflexivity|].
  refine (proj1 (proj2 (unique_path_spec Scenario.disk_taken
            ["out"; "Docs"; "x.txt"] _ _)) _ 3%N _ _ _).
  - by_evaluation.
  - discriminate.
  - vm_compute. reflexivity.
  - lia.
  - vm_compute. reflexivity.
  - intros j Hj. assert (j = 2%N) as -> by lia. vm_compute. reflexivity.
Defined.

(** ** The plan builder *)

Lemma elem_of_rglob_on (fs : FS) (root item : Path) :
  item ∈ rglob_on fs root <-> strict prefix root item ∧ is_Some (fs !! item).
Proof.
  unfold rglob_on. rewrite list_elem_of_filter, list_elem_of_fmap.
  split.
  - intros [Hpre ([q n] & -> & Hin)]. split; [done|].
    apply elem_of_map_to_list in Hin. by exists n.
  - intros [Hpre [n Hn]]. split; [done|]. exists (item, n).
    split; [done|]. by apply elem_of_map_to_list.
Qed.

Lemma strict_prefix_nil (root : Path) : ¬ strict prefix root [].
Proof. intros [_ H]. apply H, prefix_nil. Qed.

Lemma strict_prefix_parent (root item : Path) :
  strict prefix root item -> root `prefix_of` Pth.parent item.
Proof.
  intros [[k ->] Hnot]. unfold Pth.parent.
  destruct k as [|c k].
  - destruct Hnot. rewrite app_nil_r. done.
  - rewrite removelast_app by done. by apply prefix_app_r.
Qed.

Lemma relative_to_parent (root item : Path) :
  root `prefix_of` Pth.parent item ->
  Pth.relative_to (Pth.parent item) root = inr (rel_parent_of root item).
Proof.
  intros H. unfold Pth.relative_to. by rewrite bool_decide_eq_true_2.
Qed.

(** The loop is the three filters followed by the resolutions, appended
    to the plans built so far. *)
Lemma plan_loop_spec (in_root out_root : Path) (rules : Rules) (rename : bool)
    (items : list Path) (plans : list MovePlan) (fs : FS) :
  Forall (fun item => in_root `prefix_of` Pth.parent item) items ->
  plan_loop in_root out_root rules rename (organized_top_folders rules)
    items plans fs
  = (fs, match resolve_all fs out_root rules rename
                 (filter (survives rules in_root fs) items) with
         | inl e => inl e
         | inr new => inr (plans ++ new)
         end).
Proof.
  intros Hitems. revert plans.
  induction Hitems as [|item rest Hitem Hrest IH]; intros plans.
  - simpl. by rewrite app_nil_r.
  - cbn [plan_loop]. rewrite run_bind. unfold is_dir, reads.
    destruct (is_dir_on fs item) eqn:Ed.
    { rewrite IH, filter_cons_False; [done|].
      unfold survives. rewrite Ed. simpl. auto. }
    destruct (Str.starts_with_dot (Pth.name item)) eqn:Eh.
    { rewrite IH, filter_cons_False; [done|].
      unfold survives, hidden. rewrite Ed, Eh. simpl. auto. }
    rewrite run_bind. unfold lift. rewrite (relative_to_parent _ _ Hitem).
    destruct (under_organized _ (rel_parent_of in_root item)) eqn:Eo.
    { rewrite IH, filter_cons_False; [done|].
      unfold survives, hidden. rewrite Ed, Eh, Eo. simpl. auto. }
    rewrite filter_cons_True
      by (unfold survives, hidden; rewrite Ed, Eh, Eo; simpl; auto).
    cbn [resolve_all]. rewrite run_bind.
    pose proof (unique_path_read_only
                  (desired_target out_root rules rename item) fs) as Hro.
    destruct (unique_path _ fs) as [fs' [e|t]]; simpl in Hro; subst fs';
      [done|].
    simpl. rewrite IH.
    destruct (resolve_all fs out_root rules rename _) as [e|new]; [done|].
    by rewrite <- app_assoc.
Qed.

Lemma plan_actions_spec (in_root out_root : Path) (rules : Rules)
    (rename : bool) (fs : FS) :
  plan_actions in_root out_root rules rename fs
  = (fs, resolve_all fs out_root rules rename
           (filter (survives rules in_root fs) (rglob_on fs in_root))).
Proof.
  unfold plan_actions. rewrite run_bind. unfold rglob, reads.
  rewrite plan_loop_spec.
  - by destruct (resolve_all _ _ _ _ _).
  - apply Forall_forall. intros item Hin.
    apply elem_of_rglob_on in Hin as [Hpre _]. by apply strict_prefix_parent.
Qed.

(** A plan that was returned lists its files in order, each with what
    [unique_path] answered for it. *)
Lemma resolve_all_inr (fs : FS) (out_root : Path) (rules : Rules) (rename : bool)
    (items : list Path) (plans : list MovePlan) :
  resolve_all fs out_root rules rename items = inr plans ->
  src <$> plans = items
  ∧ Forall (fun pl => unique_path (desired_target out_root rules rename (src pl)) fs
                      = (fs, inr (dst pl))) plans.
Proof.
  revert plans. induction items as [|item rest IH]; intros plans Hrun.
  - injection Hrun as <-. by split.
  - cbn [resolve_all] in Hrun.
    pose proof (unique_path_read_only
                  (desired_target out_root rules rename item) fs) as Hro.
    destruct (unique_path _ fs) as [fs' [e|t]] eqn:Eu; simpl in Hro, Hrun;
      subst fs'; [discriminate|].
    destruct (resolve_all fs out_root rules rename rest) as [e|new];
      [discriminate|].
    injection Hrun as <-. destruct (IH new eq_refl) as [Hsrc Hall].
    split; [by rewrite fmap_cons, Hsrc|].
    constructor; [exact Eu | exact Hall].
Qed.

(** A plan is returned as soon as every surviving file can be resolved. *)
Lemma resolve_all_total (fs : FS) (out_root : Path) (rules : Rules)
    (rename : bool)
    (items : list Path) :
  Forall (fun item =>
            ∃ t, (unique_path (desired_target out_root rules rename item) fs).2
                 = inr t) items ->
  ∃ plans, resolve_all fs out_root rules rename items = inr plans.
Proof.
  induction 1 as [|item rest [t Ht] Hrest [plans IH]]; [by eexists|].
  cbn [resolve_all]. rewrite Ht, IH. by eexists.
Qed.

Lemma survives_true (rules : Rules) (in_root : Path) (fs : FS) (item : Path) :
  survives rules in_root fs item = true <->
  is_dir_on fs item = false
  ∧ Str.starts_with_dot (Pth.name item) = false
  ∧ ∀ top rest, drop (length in_root) (Pth.parent item) = top :: rest ->
                (top ∉ fst <$> rules_folders rules) ∧ top ≠ rules_unknown rules.
Proof.
  unfold survives, hidden, rel_parent_of, under_organized,
    organized_top_folders.
  rewrite !andb_true_iff, !negb_true_iff.
  split.
  - intros [[Hd Hh] Ho]. split; [done|]. split; [done|].
    intros top rest E. rewrite E in Ho.
    apply bool_decide_eq_false in Ho. set_solver.
  - intros (Hd & Hh & Ho). split; [done|].
    destruct (drop (length in_root) (Pth.parent item)) as [|top rest];
      [done|].
    apply bool_decide_eq_false. destruct (Ho top rest eq_refl). set_solver.
Qed.

(** What [unique_path] returns is not on disk. *)
Lemma unique_loop_free (fs fs' : FS) (p : Path) stem suffix n i (t : Path) :
  unique_loop p stem suffix n i fs = (fs', inr t) -> exists_on fs t = false.
Proof.
  revert i. induction n as [|n IH]; intros i Hrun; [discriminate Hrun|].
  cbn [unique_loop] in Hrun. rewrite run_bind in Hrun. unfold lift in Hrun.
  destruct (Pth.with_name p (numbered stem i suffix)) as [e|c];
    [discriminate Hrun|].
  rewrite run_bind in Hrun. unfold path_exists, reads in Hrun.
  destruct (exists_on fs c) eqn:Ec; simpl in Hrun.
  - by apply (IH _ Hrun).
  - by injection Hrun as _ <-.
Qed.

Lemma unique_path_free (fs fs' : FS) (p t : Path) :
  unique_path p fs = (fs', inr t) -> exists_on fs t = false.
Proof.
  intros Hrun. destruct (exists_on fs p) eqn:Ep.
  - rewrite (unique_path_present _ _ Ep) in Hrun.
    by apply unique_loop_free in Hrun.
  - rewrite (unique_path_absent _ _ Ep) in Hrun. by injection Hrun as _ <-.
Qed.

(** The part of the no-collision invariant that the code keeps: no planned
    destination is on disk when the plan is computed. *)
Lemma plan_destinations_free (in_root out_root : Path) (rules : Rules)
    (rename : bool) (fs : FS) (plans : list MovePlan) :
  (plan_actions in_root out_root rules rename fs).2 = inr plans ->
  Forall (fun pl => exists_on fs (dst pl) = false) plans.
Proof.
  rewrite plan_actions_spec. simpl. intros Hrun.
  apply resolve_all_inr in Hrun as [_ Hall].
  eapply Forall_impl; [exact Hall|]. intros pl Hpl. simpl in Hpl.
  by apply unique_path_free in Hpl.
Qed.

(** C1, at the input where the code breaks it.  Two files called x.txt in
    two folders of the source are both planned to Docs/x.txt: the
    destinations of the plan are not pairwise distinct, and applying the
    plan in place leaves one file where there were two (the text "second"
    is lost). *)
Theorem same_name_files_collide :
  let plans :=
    [ {| src := ["inbox"; "b"; "x.txt"]; dst := ["inbox"; "Docs"; "x.txt"] |};
      {| src := ["inbox"; "a"; "x.txt"]; dst := ["inbox"; "Docs"; "x.txt"] |} ] in
  (plan_actions Scenario.inbox Scenario.inbox Scenario.rules false
     Scenario.disk_same_name).2 = inr plans
  ∧ ¬ NoDup (dst <$> plans)
  ∧ (apply plans true false Scenario.disk_same_name).2 = inr tt
  ∧ map_to_list (apply plans true false Scenario.disk_same_name).1
    = [ (["inbox"], Dir); (["inbox"; "Docs"; "x.txt"], File "first");
        (["inbox"; "Docs"], Dir); (["inbox"; "b"], Dir);
        (["inbox"; "a"], Dir) ].
Proof.
  intros plans. split; [vm_compute; reflexivity|].
  split. { intros Hnd. apply NoDup_cons in Hnd as [Hin _]. set_solver. }
  split; vm_compute; reflexivity.
Qed.

(** C4, as the code has it.  Whenever [plan_actions] returns, the files of
    the plan are exactly the entries below the source root that pass three
    filters, in the order of the walk: the entry is no directory; its own
    name does not start with a dot; and the directory it lies in is not
    inside a top-level folder of the source root named like a category or
    like the fallback (so the third filter reads the path of the entry's
    parent, and never skips an entry that lies in the source root itself).
    A plan is returned as soon as each such file gets a destination.  In
    the scenario of section 8, a.jpg and notes.txt are planned and
    .hidden and Images/old.jpg are not. *)
Theorem plan_actions_sources (in_root out_root : Path) (rules : Rules)
    (rename : bool) (fs : FS) :
  (∀ plans, (plan_actions in_root out_root rules rename fs).2 = inr plans ->
      src <$> plans = filter (survives rules in_root fs) (rglob_on fs in_root))
  ∧ (Forall (fun item =>
       ∃ t, (unique_path (desired_target out_root rules rename item) fs).2
            = inr t)
       (filter (survives rules in_root fs) (rglob_on fs in_root)) ->
     ∃ plans, (plan_actions in_root out_root rules rename fs).2 = inr plans)
  ∧ (∀ item, item ∈ rglob_on fs in_root <->
             strict prefix in_root item ∧ is_Some (fs !! item))
  ∧ (∀ item, survives rules in_root fs item = true <->
       is_dir_on fs item = false
       ∧ Str.starts_with_dot (Pth.name item) = false
       ∧ ∀ top rest, drop (length in_root) (Pth.parent item) = top :: rest ->
                     (top ∉ fst <$> rules_folders rules) ∧ top ≠ rules_unknown rules)
  ∧ (plan_actions Scenario.inbox Scenario.inbox Scenario.rules false
       Scenario.disk).2
    = inr [ {| src := ["inbox"; "notes.txt"];
               dst := ["inbox"; "Docs"; "notes.txt"] |};
            {| src := ["inbox"; "a.jpg"];
               dst := ["inbox"; "Images"; "a.jpg"] |} ].
Proof.
  split; [|split; [|split; [|split]]].
  - intros plans. rewrite plan_actions_spec. simpl. intros Hrun.
    by apply resolve_all_inr in Hrun as [Hsrc _].
  - intros Hall. rewrite plan_actions_spec. simpl.
    by apply resolve_all_total.
  - intros item. apply elem_of_rglob_on.
  - intros item. apply survives_true.
  - vm_compute. reflexivity.
Qed.

(** C4 as it was stated fails for a regular file of the source root that is
    called like a category: Other, with no extension, has the first
    component Other in its path relative to the source root, so the
    filters of the claim leave no file at all; yet the code plans it. *)
Lemma file_named_like_category_is_planned :
  (plan_actions Scenario.inbox Scenario.inbox Scenario.rules false
     Scenario.disk_named_like_category).2
  = inr [ {| src := ["inbox"; "Other"]; dst := ["inbox"; "Other"; "Other"] |} ]
  ∧ filter (survives_by_own_path Scenario.rules Scenario.inbox
              Scenario.disk_named_like_category)
      (rglob_on Scenario.disk_named_like_category Scenario.inbox) = [].
Proof. split; vm_compute; reflexivity. Qed.

(** C10.  The hidden-file test looks at the entry's own name only: a file
    below the source root that is no directory, whose own name does not
    start with a dot and whose parent is not inside an organized top-level
    folder is in every plan that is returned, whatever the names of the
    directories between the source root and the file. *)
Theorem visible_file_is_planned (in_root out_root : Path) (rules : Rules)
    (rename : bool) (fs : FS) (item : Path) (plans : list MovePlan) :
  item ∈ rglob_on fs in_root ->
  is_dir_on fs item = false ->
  Str.starts_with_dot (Pth.name item) = false ->
  under_organized (organized_top_folders rules) (rel_parent_of in_root item)
  = false ->
  (plan_actions in_root out_root rules rename fs).2 = inr plans ->
  item ∈ src <$> plans.
Proof.
  intros Hin Hd Hh Ho. rewrite plan_actions_spec. simpl. intros Hrun.
  apply resolve_all_inr in Hrun as [-> _].
  apply list_elem_of_filter. split; [|done].
  unfold survives, hidden. by rewrite Hd, Hh, Ho.
Qed.

(** data.txt inside the hidden directory .cache is planned. *)
Lemma visible_file_in_hidden_directory :
  Str.starts_with_dot ".cache" = true
  ∧ ["inbox"; ".cache"; "data.txt"]
    ∈ src <$> [ {| src := ["inbox"; ".cache"; "data.txt"];
                   dst := ["inbox"; "Docs"; "data.txt"] |} ].
Proof.
  split; [reflexivity|].
  apply (visible_file_is_planned Scenario.inbox Scenario.inbox Scenario.rules
           false Scenario.disk_hidden_dir).
  - apply elem_of_rglob_on. split.
    + split; [by exists [".cache"; "data.txt"]|].
      intros H. apply prefix_length in H. simpl in H. lia.
    + exists (File "d"). vm_compute. reflexivity.
  - reflexivity.
  - reflexivity.
  - by vm_compute.
  - by vm_compute.
Defined.

(** ** Plain names as path components *)

Lemma split_slash_no_slash (s : string) :
  Pth.has_slash s = false -> Str.split_slash s = [s].
Proof.
  induction s as [|c s IH]; simpl; [done|].
  intros H. apply orb_false_iff in H as [Hc Hs].
  by rewrite Hc, (IH Hs).
Qed.

Lemma starts_with_slash_no_slash (s : string) :
  Pth.has_slash s = false -> Str.starts_with_slash s = false.
Proof.
  destruct s as [|c s]; [done|]. simpl. intros H.
  apply orb_false_iff in H as [Hc _]. apply Ascii.eqb_neq in Hc.
  unfold Str.starts_with_slash.
  destruct c as [[] [] [] [] [] [] [] []]; try reflexivity.
  by destruct Hc.
Qed.

Lemma joinpath_plain (p : Path) (s : string) :
  plain_name s -> p // s = p ++ [s].
Proof.
  intros (Hne & Hdot & _ & Hsl). unfold Pth.joinpath, Pth.parse_parts.
  rewrite (starts_with_slash_no_slash s Hsl), (split_slash_no_slash s Hsl).
  by rewrite filter_cons_True, filter_nil.
Qed.

Lemma desired_target_plain (out_root : Path) (rules : Rules) (rename : bool)
    (item : Path) :
  plain_name (extension_bucket (Pth.suffix item) rules) ->
  plain_name (target_name rename item) ->
  desired_target out_root rules rename item
  = out_root ++ [extension_bucket (Pth.suffix item) rules;
                 target_name rename item].
Proof.
  intros Hb Ht. unfold desired_target.
  by rewrite (joinpath_plain _ _ Hb), (joinpath_plain _ _ Ht), <- app_assoc.
Qed.

(** [unique_path] answers with the path itself or with a sibling of it. *)
Lemma unique_loop_sibling (fs fs' : FS) (p : Path) stem suffix n i (t : Path) :
  unique_loop p stem suffix n i fs = (fs', inr t) ->
  ∃ nm, t = Pth.parent p ++ [nm].
Proof.
  revert i. induction n as [|n IH]; intros i Hrun; [discriminate Hrun|].
  cbn [unique_loop] in Hrun. rewrite run_bind in Hrun. unfold lift in Hrun.
  destruct (Pth.with_name p (numbered stem i suffix)) as [e|c] eqn:Ew;
    [discriminate Hrun|].
  rewrite run_bind in Hrun. unfold path_exists, reads in Hrun.
  destruct (exists_on fs c) eqn:Ec; cbn [negb] in Hrun.
  - by apply (IH _ Hrun).
  - injection Hrun as _ <-. unfold Pth.with_name in Ew.
    repeat case_match; try discriminate Ew. injection Ew as <-. by eexists.
Qed.

Lemma unique_path_sibling (fs fs' : FS) (p t : Path) :
  unique_path p fs = (fs', inr t) -> t = p ∨ ∃ nm, t = Pth.parent p ++ [nm].
Proof.
  intros Hrun. destruct (exists_on fs p) eqn:Ep.
  - rewrite (unique_path_present _ _ Ep) in Hrun. right.
    by apply unique_loop_sibling in Hrun.
  - rewrite (unique_path_absent _ _ Ep) in Hrun. left.
    by injection Hrun as _ <-.
Qed.

(** ** What the executor does to the regular files *)

Lemma files_within_refl (fs : FS) : files_within fs fs.
Proof. by intros q data. Qed.

Lemma files_within_trans (fs1 fs2 fs3 : FS) :
  files_within fs1 fs2 -> files_within fs2 fs3 -> files_within fs1 fs3.
Proof. intros H12 H23 q data H. by apply H23, H12. Qed.

Lemma files_within_mkdir (p : Path) (fs : FS) :
  files_within (<[p := Dir]> fs) fs.
Proof.
  intros q data. rewrite lookup_insert. case_decide; [done|done].
Qed.

Lemma os_mkdir_files (p : Path) (fs fs' : FS) r :
  os_mkdir p fs = (fs', r) -> files_within fs' fs.
Proof.
  unfold os_mkdir. intros H.
  repeat case_match; injection H as <- _;
    auto using files_within_refl, files_within_mkdir.
Qed.

Lemma mkdir_exist_ok_files (p : Path) (fs fs' : FS) r :
  mkdir_exist_ok p fs = (fs', r) -> files_within fs' fs.
Proof.
  unfold mkdir_exist_ok. intros H.
  destruct (os_mkdir p fs) as [fs1 [e|u]] eqn:E.
  - repeat case_match; injection H as <- _; apply files_within_refl.
  - injection H as <- _. by apply os_mkdir_files in E.
Qed.

Lemma mkdir_parents_rev_files (rp : list string) (fs fs' : FS) r :
  mkdir_parents_rev rp fs = (fs', r) -> files_within fs' fs.
Proof.
  revert fs fs' r. induction rp as [|c rparent IH]; intros fs fs' r H.
  - injection H as <- _. apply files_within_refl.
  - cbn [mkdir_parents_rev] in H.
    destruct (os_mkdir (reverse (c :: rparent)) fs) as [fs1 [e|u]] eqn:E.
    + destruct e;
        try (repeat case_match; injection H as <- _;
             apply files_within_refl).
      rewrite run_bind in H.
      destruct (mkdir_parents_rev rparent fs) as [fs2 [e2|u2]] eqn:E2.
      * injection H as <- _. by apply IH in E2.
      * apply mkdir_exist_ok_files in H. apply IH in E2.
        by apply (files_within_trans _ fs2).
    + injection H as <- _. by apply os_mkdir_files in E.
Qed.

Lemma mkdir_parents_files (p : Path) (fs fs' : FS) r :
  mkdir_parents p fs = (fs', r) -> files_within fs' fs.
Proof. apply mkdir_parents_rev_files. Qed.

Lemma real_dst_prefix (fs : FS) (s d : Path) : d `prefix_of` real_dst fs s d.
Proof.
  unfold real_dst. destruct (is_dir_on fs d); [by apply prefix_app_r|done].
Qed.

(** After a move, a regular file is either at or below the destination,
    or it was there before and is not the source. *)
Lemma shutil_move_files (s d : Path) (fs fs' : FS) :
  shutil_move s d fs = (fs', inr tt) ->
  ∀ q data, fs' !! q = Some (File data) ->
    d `prefix_of` q ∨ (fs !! q = Some (File data) ∧ q ≠ s).
Proof.
  unfold shutil_move. intros H q data Hq.
  pose proof (real_dst_prefix fs s d) as Hrd.
  destruct (is_dir_on fs d && bool_decide (s = d)) eqn:Esame.
  { injection H as <-. apply andb_true_iff in Esame as [_ Esd].
    apply bool_decide_eq_true in Esd as <-.
    destruct (decide (q = s)) as [->|Hqs]; [by left | by right]. }
  destruct (is_dir_on fs d && exists_on fs (real_dst fs s d));
    [discriminate H|].
  destruct (stat fs s) as [[sdata|]|] eqn:Es; [| |discriminate H].
  - destruct (stat fs (Pth.parent (real_dst fs s d))) as [[?|]|];
      try discriminate H.
    injection H as <-. rewrite lookup_insert in Hq.
    case_decide as Eq; [subst q; by left|].
    right. rewrite lookup_delete in Hq. case_decide; [done|].
    split; [done|congruence].
  - destruct (bool_decide (s `prefix_of` real_dst fs s d));
      [discriminate H|].
    destruct (exists_on fs (real_dst fs s d)); [discriminate H|].
    destruct (stat fs (Pth.parent (real_dst fs s d))) as [[?|]|];
      try discriminate H.
    injection H as <-.
    unfold move_tree in Hq. apply elem_of_list_to_map_2 in Hq.
    apply list_elem_of_fmap in Hq as ([q0 v] & Heq & Hin).
    apply elem_of_map_to_list in Hin. unfold reroot in Heq. simpl in Heq.
    destruct (bool_decide (s `prefix_of` q0)) eqn:Hpre;
      injection Heq as -> ->.
    + left. etrans; [exact Hrd|]. by apply prefix_app_r.
    + right. split; [done|]. intros ->.
      apply bool_decide_eq_false in Hpre. by destruct Hpre.
Qed.

Lemma under_organized_below (in_root : Path) (organized : gset string)
    (b n : string) (k : list string) :
  b ∈ organized ->
  under_organized organized (rel_parent_of in_root (in_root ++ b :: n :: k))
  = true.
Proof.
  intros Hb. unfold rel_parent_of, Pth.parent.
  rewrite removelast_app by done.
  change (removelast (b :: n :: k)) with (b :: removelast (n :: k)).
  rewrite drop_app_length. simpl. by apply bool_decide_eq_true_2.
Qed.

(** After the plan has been applied in place, a regular file lies inside an
    organized top-level folder, or it was on disk before and is no source
    of the plan. *)
Lemma apply_loop_files (in_root : Path) (organized : gset string)
    (plans : list MovePlan) (fs fs' : FS) :
  apply_loop true plans fs = (fs', inr tt) ->
  Forall (fun pl => ∃ b n, dst pl = in_root ++ [b; n] ∧ b ∈ organized) plans ->
  ∀ q data, fs' !! q = Some (File data) ->
    under_organized organized (rel_parent_of in_root q) = true
    ∨ (fs !! q = Some (File data) ∧ q ∉ src <$> plans).
Proof.
  intros Hrun Hshape. revert fs Hrun.
  induction Hshape as [|pl rest (b & n & Hd & Hb) Hrest IH];
    intros fs Hrun q data Hq.
  - injection Hrun as <-. right. split; [done|]. by apply not_elem_of_nil.
  - cbn [apply_loop] in Hrun. rewrite run_bind in Hrun.
    destruct (mkdir_parents (Pth.parent (dst pl)) fs) as [fs1 [e|u]] eqn:E1;
      [discriminate Hrun|].
    rewrite run_bind in Hrun.
    destruct (shutil_move (src pl) (dst pl) fs1) as [fs2 [e|[]]] eqn:E2;
      [discriminate Hrun|].
    destruct (IH _ Hrun q data Hq) as [Horg | [Hq2 Hnot]]; [by left|].
    destruct (shutil_move_files _ _ _ _ E2 q data Hq2) as [[k ->] | [Hq1 Hne]].
    + left. rewrite Hd, <- app_assoc. by apply under_organized_below.
    + right. split.
      * by apply (mkdir_parents_files _ _ _ _ E1).
      * rewrite fmap_cons. by apply not_elem_of_cons.
Qed.

Lemma plain_bucket (rules : Rules) (ext : string) :
  Forall plain_name (fst <$> rules_folders rules) ->
  plain_name (rules_unknown rules) ->
  plain_name (extension_bucket ext rules).
Proof.
  intros Hcat Hunk. unfold extension_bucket.
  destruct (bucket_loop_elem (Str.lower ext) (rules_folders rules)
              (rules_unknown rules)) as [H | ->]; [|done].
  rewrite Forall_forall in Hcat. by apply Hcat.
Qed.

(** With plain names, every destination of a plan is a file name directly
    inside a category folder of the output root. *)
Lemma plan_destination_shape (out_root : Path) (rules : Rules) (rename : bool)
    (fs fs' : FS) (item t : Path) :
  Forall plain_name (fst <$> rules_folders rules) ->
  plain_name (rules_unknown rules) ->
  plain_name (target_name rename item) ->
  unique_path (desired_target out_root rules rename item) fs = (fs', inr t) ->
  ∃ b n, t = out_root ++ [b; n] ∧ b ∈ organized_top_folders rules.
Proof.
  intros Hcat Hunk Htn Hrun.
  pose proof (plain_bucket rules (Pth.suffix item) Hcat Hunk) as Hb.
  rewrite (desired_target_plain _ _ _ _ Hb Htn) in Hrun.
  exists (extension_bucket (Pth.suffix item) rules).
  apply unique_path_sibling in Hrun as [-> | [nm ->]].
  - eexists. split; [done|]. apply extension_bucket_organized.
  - exists nm. split; [|apply extension_bucket_organized].
    unfold Pth.parent.
    change [extension_bucket (Pth.suffix item) rules; target_name rename item]
      with ([extension_bucket (Pth.suffix item) rules]
            ++ [target_name rename item]).
    by rewrite app_assoc, removelast_last, <- app_assoc.
Qed.

(** The plan is built on [fs1] and applied in place on [fs2], a disk whose
    regular files below the source root are all regular files of [fs1]:
    afterwards nothing is left to plan. *)
Lemma rerun_empty (in_root : Path) (rules : Rules) (rename : bool)
    (fs1 fs2 fs' : FS) (plans : list MovePlan) :
  Forall plain_name (fst <$> rules_folders rules) ->
  plain_name (rules_unknown rules) ->
  Forall (fun item => plain_name (target_name rename item))
    (filter (survives rules in_root fs1) (rglob_on fs1 in_root)) ->
  (plan_actions in_root in_root rules rename fs1).2 = inr plans ->
  (∀ q data, strict prefix in_root q ->
     fs2 !! q = Some (File data) -> fs1 !! q = Some (File data)) ->
  apply plans true false fs2 = (fs', inr tt) ->
  plan_actions in_root in_root rules rename fs' = (fs', inr [])
  ∧ (∀ item data, strict prefix in_root item ->
       fs' !! item = Some (File data) ->
       hidden item = true
       ∨ under_organized (organized_top_folders rules)
           (rel_parent_of in_root item) = true)
  ∧ Forall (fun pl => ∃ b n, dst pl = in_root ++ [b; n]
                             ∧ b ∈ organized_top_folders rules) plans.
Proof.
  intros Hcat Hunk Htn Hplan Hfs2 Happly.
  rewrite plan_actions_spec in Hplan. simpl in Hplan.
  apply resolve_all_inr in Hplan as [Hsrc Hdst].
  assert (Forall (fun pl => ∃ b n, dst pl = in_root ++ [b; n]
                                   ∧ b ∈ organized_top_folders rules) plans)
    as Hshape.
  { apply Forall_forall. intros pl Hpl.
    rewrite Forall_forall in Hdst. specialize (Hdst pl Hpl). simpl in Hdst.
    rewrite Forall_forall in Htn.
    apply (plan_destination_shape in_root rules rename fs1 fs1 (src pl));
      [done|done| |done].
    apply Htn. rewrite <- Hsrc. by apply list_elem_of_fmap_2. }
  assert (∀ item data, strict prefix in_root item ->
            fs' !! item = Some (File data) ->
            hidden item = true
            ∨ under_organized (organized_top_folders rules)
                (rel_parent_of in_root item) = true) as Hfiles.
  { intros item data Hpre Hitem.
    destruct (apply_loop_files in_root _ plans fs2 fs' Happly Hshape
                item data Hitem) as [Horg | [Hold Hnot]]; [by right|].
    apply (Hfs2 _ _ Hpre) in Hold.
    rewrite Hsrc in Hnot.
    assert (item ∈ rglob_on fs1 in_root) as Hin.
    { apply elem_of_rglob_on. split; [done|]. by eexists. }
    assert (survives rules in_root fs1 item = false) as Hs.
    { apply not_true_is_false. intros Hs. apply Hnot.
      apply list_elem_of_filter. split; [by apply Is_true_true|done]. }
    unfold survives in Hs.
    assert (is_dir_on fs1 item = false) as Hd.
    { unfold is_dir_on, stat.
      destruct item; [by apply strict_prefix_nil in Hpre|].
      rewrite Hold. by apply bool_decide_eq_false_2. }
    rewrite Hd in Hs. simpl in Hs.
    apply andb_false_iff in Hs as [Hs | Hs]; apply negb_false_iff in Hs;
      auto. }
  split; [|by split].
  rewrite plan_actions_spec. f_equal.
  assert (filter (survives rules in_root fs') (rglob_on fs' in_root) = [])
    as ->; [|done].
  apply elem_of_nil_inv. intros item Hin.
  apply list_elem_of_filter in Hin as [Hs Hin].
  apply Is_true_true in Hs.
  apply elem_of_rglob_on in Hin as [Hpre [v Hv]].
  unfold survives in Hs.
  apply andb_true_iff in Hs as [Hs Ho]. apply andb_true_iff in Hs as [Hd Hh].
  apply negb_true_iff in Hd, Hh, Ho.
  destruct v as [data|].
  - destruct (Hfiles item data Hpre Hv); congruence.
  - unfold is_dir_on, stat in Hd.
    destruct item; [by apply strict_prefix_nil in Hpre|].
    rewrite Hv in Hd. by rewrite bool_decide_eq_true_2 in Hd.
Qed.

(** C5, as the code has it.  Let every category name and the fallback name
    be a plain folder name, and let every file to be planned have a plain
    target name (its own name, or its slug when renaming).  If the plan
    built in place is applied in place and the executor runs to its end,
    then the plan built next is empty: every destination of the first plan
    is a name directly inside a category folder of the source root, and
    every regular file below the source root is hidden or lies inside an
    organized top-level folder. *)
Theorem second_plan_is_empty (in_root : Path) (rules : Rules) (rename : bool)
    (fs fs' : FS) (plans : list MovePlan) :
  Forall plain_name (fst <$> rules_folders rules) ->
  plain_name (rules_unknown rules) ->
  Forall (fun item => plain_name (target_name rename item))
    (filter (survives rules in_root fs) (rglob_on fs in_root)) ->
  (plan_actions in_root in_root rules rename fs).2 = inr plans ->
  apply plans true false fs = (fs', inr tt) ->
  plan_actions in_root in_root rules rename fs' = (fs', inr [])
  ∧ (∀ item data, strict prefix in_root item ->
       fs' !! item = Some (File data) ->
       hidden item = true
       ∨ under_organized (organized_top_folders rules)
           (rel_parent_of in_root item) = true)
  ∧ Forall (fun pl => ∃ b n, dst pl = in_root ++ [b; n]
                             ∧ b ∈ organized_top_folders rules) plans.
Proof.
  intros Hcat Hunk Htn Hplan Happly.
  apply (rerun_empty in_root rules rename fs fs fs' plans); auto.
Qed.

(** The plan of the scenario of section 8 applied in place: the second
    plan is empty. *)
Lemma scenario_second_plan_is_empty :
  let plans :=
    [ {| src := ["inbox"; "notes.txt"]; dst := ["inbox"; "Docs"; "notes.txt"] |};
      {| src := ["inbox"; "a.jpg"]; dst := ["inbox"; "Images"; "a.jpg"] |} ] in
  (plan_actions Scenario.inbox Scenario.inbox Scenario.rules false
     (apply plans true false Scenario.disk).1).2 = inr [].
Proof.
  intros plans.
  refine (f_equal snd (proj1 (second_plan_is_empty Scenario.inbox Scenario.rules
    false Scenario.disk (apply plans true false Scenario.disk).1 plans
    _ _ _ _ _))).
  - by_evaluation.
  - by_evaluation.
  - by_evaluation.
  - vm_compute. reflexivity.
  - apply injective_projections; [reflexivity|]. vm_compute. reflexivity.
Defined.

(** C5 as it was stated fails when a category names a nested folder: the
    text file goes to Docs/Text, whose top-level folder Docs is no category
    name, so the second plan takes the file again and renames it. *)
Lemma nested_category_is_planned_again :
  let plans :=
    [ {| src := ["inbox"; "x.txt"];
         dst := ["inbox"; "Docs"; "Text"; "x.txt"] |} ] in
  (plan_actions Scenario.inbox Scenario.inbox Scenario.rules_nested false
     Scenario.disk_one_text).2 = inr plans
  ∧ (apply plans true false Scenario.disk_one_text).2 = inr tt
  ∧ (plan_actions Scenario.inbox Scenario.inbox Scenario.rules_nested false
       (apply plans true false Scenario.disk_one_text).1).2
    = inr [ {| src := ["inbox"; "Docs"; "Text"; "x.txt"];
               dst := ["inbox"; "Docs"; "Text"; "x_2.txt"] |} ].
Proof. intros plans. repeat split; vm_compute; reflexivity. Qed.

(** ** The command: what happens before the first write *)

Lemma run_bind_reads {A B : Type} (g : FS -> A) (f : A -> M B) (fs : FS) :
  (reads g ≫= f) fs = f (g fs) fs.
Proof. reflexivity. Qed.

Lemma is_dir_exists (fs : FS) (p : Path) :
  is_dir_on fs p = true -> exists_on fs p = true.
Proof.
  unfold is_dir_on, exists_on. intros H. apply bool_decide_eq_true in H.
  apply bool_decide_eq_true. rewrite H. by eexists.
Qed.

(** Making a directory that is there changes nothing. *)
Lemma mkdir_parents_existing (fs : FS) (p : Path) :
  is_dir_on fs p = true -> mkdir_parents p fs = (fs, inr tt).
Proof.
  intros Hd. unfold mkdir_parents.
  destruct (reverse p) as [|c rp] eqn:E; [done|].
  cbn [mkdir_parents_rev]. rewrite <- E, reverse_involutive.
  unfold os_mkdir. by rewrite (is_dir_exists _ _ Hd), Hd.
Qed.

Lemma read_file_read_only (p : Path) : read_only (read_file p).
Proof. intros fs. unfold read_file. by repeat case_match. Qed.

Lemma load_rules_read_only (json_load : string -> option Rules) (p : Path) :
  read_only (load_rules json_load p).
Proof.
  unfold load_rules. apply read_only_bind; [apply read_file_read_only|].
  intros text. destruct (json_load text); auto with read_only.
Qed.

(** A separate output folder that is in use is refused, and left alone. *)
Lemma ensure_clean_refuses (fs : FS) (out : Path) :
  is_dir_on fs out = true -> iterdir_on fs out ≠ [] ->
  ensure_clean_output_folder out false fs
  = (fs, inl (SystemExit ("Output folder is not empty: " +:+ Pth.render out))).
Proof.
  intros Hd Hne. unfold ensure_clean_output_folder.
  rewrite run_bind, (mkdir_parents_existing _ _ Hd), run_bind.
  unfold iterdir. apply bool_decide_eq_true in Hd. rewrite Hd.
  by rewrite bool_decide_eq_true_2.
Qed.

(** C2.  When the source root is missing or is no directory, when the
    rules file is missing, or when a separate output root is a directory
    with an entry in it, [main] ends by an exception and the file system
    is what it was: nothing has been created, written, moved or copied.
    The exception is the [SystemExit] with its message, unless reading the
    rules file has failed before the output folder was looked at. *)
Theorem fatal_precondition_aborts (json_load : string -> option Rules)
    (cwd : Path) (timestamp : string) (args : Args) (fs : FS) :
  fatal_precondition args fs ->
  ∃ e, main json_load cwd timestamp args fs = (fs, inl e)
       ∧ ((∃ msg, e = SystemExit msg)
          ∨ (load_rules json_load (rules_file args) fs).2 = inl e).
Proof.
  intros Hfatal. unfold main, path_exists, is_dir.
  rewrite !run_bind_reads.
  destruct (negb (exists_on fs (root args)) || negb (is_dir_on fs (root args)))
    eqn:Eroot.
  { eexists. split; [reflexivity|]. left. by eexists. }
  rewrite run_bind_reads.
  destruct (negb (exists_on fs (rules_file args))) eqn:Erules.
  { eexists. split; [reflexivity|]. left. by eexists. }
  apply orb_false_iff in Eroot as [Ee Ed].
  apply negb_false_iff in Ee, Ed, Erules.
  destruct Hfatal as [H | H | H | out Hout Hne Hdir Hin]; try congruence.
  rewrite run_bind.
  pose proof (load_rules_read_only json_load (rules_file args) fs) as Hro.
  destruct (load_rules json_load (rules_file args) fs) as [fs1 [e|rules]];
    simpl in Hro; subst fs1.
  { eexists. split; [reflexivity|]. by right. }
  cbv beta zeta. rewrite Hout. cbn [default from_option id].
  rewrite (bool_decide_eq_false_2 _ Hne), run_bind.
  rewrite (ensure_clean_refuses _ _ Hdir Hin).
  eexists. split; [reflexivity|]. left. by eexists.
Qed.

(** The output folder /out holds a file: the run is refused. *)
Lemma output_in_use_aborts :
  ∃ e, main (fun _ => Some Scenario.rules) ["home"] "20240101_120000"
         Scenario.args_copy Scenario.disk_output_in_use
       = (Scenario.disk_output_in_use, inl e)
       ∧ ((∃ msg, e = SystemExit msg)
          ∨ (load_rules (fun _ => Some Scenario.rules)
               (rules_file Scenario.args_copy) Scenario.disk_output_in_use).2
            = inl e).
Proof.
  apply fatal_precondition_aborts.
  apply (output_not_empty _ _ ["out"]).
  - reflexivity.
  - discriminate.
  - vm_compute. reflexivity.
  - vm_compute. discriminate.
Defined.

(** ** Further scenarios *)

(** In the scenario of section 8 no destination is on disk beforehand. *)
Lemma scenario_destinations_free :
  Forall (fun pl => exists_on Scenario.disk (dst pl) = false)
    [ {| src := ["inbox"; "notes.txt"]; dst := ["inbox"; "Docs"; "notes.txt"] |};
      {| src := ["inbox"; "a.jpg"]; dst := ["inbox"; "Images"; "a.jpg"] |} ].
Proof.
  apply (plan_destinations_free Scenario.inbox Scenario.inbox Scenario.rules
           false Scenario.disk).
  vm_compute. reflexivity.
Defined.

(** README and LICENSE have no extension and both fall to Other, with
    distinct destinations. *)
Lemma extensionless_files_scenario :
  (Pth.suffix ["inbox"; "README"] = "" ∧ Pth.suffix ["inbox"; "LICENSE"] = "")
  ∧ (plan_actions Scenario.inbox Scenario.inbox Scenario.rules false
       Scenario.disk_no_extension).2
    = inr [ {| src := ["inbox"; "LICENSE"];
               dst := ["inbox"; "Other"; "LICENSE"] |};
            {| src := ["inbox"; "README"];
               dst := ["inbox"; "Other"; "README"] |} ].
Proof. repeat split; vm_compute; reflexivity. Qed.

(** Under the rename flag, a file whose slug is a single dot is moved onto
    the category folder's own path: it becomes the regular file Other in
    the source root, and the next plan takes it again. *)
Lemma dot_slug_is_planned_again :
  let plans := [ {| src := ["inbox"; "(.)"]; dst := ["inbox"; "Other"] |} ] in
  slugify "(.)" = "."
  ∧ (plan_actions Scenario.inbox Scenario.inbox Scenario.rules true
       Scenario.disk_dot_slug).2 = inr plans
  ∧ (apply plans true false Scenario.disk_dot_slug).2 = inr tt
  ∧ (plan_actions Scenario.inbox Scenario.inbox Scenario.rules true
       (apply plans true false Scenario.disk_dot_slug).1).2
    = inr [ {| src := ["inbox"; "Other"];
               dst := ["inbox"; "Other"; "Other"] |} ].
Proof. intros plans. repeat split; vm_compute; reflexivity. Qed.

(** ** The whole command, run twice in place *)

Lemma write_file_files (p : Path) (text : string) (fs fs' : FS) r :
  write_file p text fs = (fs', r) ->
  ∀ q data, fs' !! q = Some (File data) ->
            q = p ∨ fs !! q = Some (File data).
Proof.
  unfold write_file. intros H q data Hq.
  destruct (decide (q = p)) as [->|Hne]; [by left|]. right.
  repeat case_match; injection H as <- _; try done;
    by rewrite lookup_insert_ne in Hq.
Qed.

Lemma write_log_files (plans : list MovePlan) (log_path : Path)
    (fs fs' : FS) r :
  write_log plans log_path fs = (fs', r) ->
  ∀ q data, fs' !! q = Some (File data) ->
            q = log_path ∨ fs !! q = Some (File data).
Proof.
  unfold write_log. rewrite run_bind. intros H q data Hq.
  destruct (mkdir_parents (Pth.parent log_path) fs) as [fs1 [e|u]] eqn:E1.
  - injection H as <- _. right. by apply (mkdir_parents_files _ _ _ _ E1).
  - destruct (write_file_files _ _ _ _ _ H q data Hq) as [->|Hq1];
      [by left|].
    right. by apply (mkdir_parents_files _ _ _ _ E1).
Qed.

(** Runs the outermost bind of the action in [H]. *)
Ltac run_bind_in H :=
  match type of H with
  | @mbind M M_bind ?A ?B ?f ?m ?x = _ => rewrite (@run_bind A B m f x) in H
  end.

(** The steps of a run in place that is not a dry run and ends well. *)
Lemma main_in_place_steps (json_load : string -> option Rules) (cwd : Path)
    (timestamp : string) (args : Args) (fs fs' : FS) (lines : list string) :
  output args = None -> dry_run args = false ->
  main json_load cwd timestamp args fs = (fs', inr lines) ->
  ∃ rules fs1 plans fs2,
    load_rules json_load (rules_file args) fs = (fs, inr rules)
    ∧ mkdir_parents (cwd // "logs") fs = (fs1, inr tt)
    ∧ plan_actions (root args) (root args) rules (rename args) fs1
      = (fs1, inr plans)
    ∧ write_log plans (log_path_of cwd timestamp (root args) (root args)) fs1
      = (fs2, inr tt)
    ∧ apply plans true false fs2 = (fs', inr tt).
Proof.
  intros Hout Hdry Hrun. unfold main, path_exists, is_dir in Hrun.
  rewrite !run_bind_reads in Hrun.
  destruct (negb (exists_on fs (root args)) || negb (is_dir_on fs (root args)));
    [discriminate Hrun|].
  rewrite run_bind_reads in Hrun.
  destruct (negb (exists_on fs (rules_file args))); [discriminate Hrun|].
  rewrite run_bind in Hrun.
  pose proof (load_rules_read_only json_load (rules_file args) fs) as Hro.
  destruct (load_rules json_load (rules_file args) fs) as [fs0 [e|rules]]
    eqn:El; simpl in Hro; subst fs0; [discriminate Hrun|].
  cbv beta zeta in Hrun. rewrite Hout, Hdry in Hrun.
  cbn [default from_option] in Hrun.
  rewrite bool_decide_eq_true_2 in Hrun by done.
  run_bind_in Hrun.
  change (ensure_clean_output_folder (root args) true fs)
    with (fs, inr tt : exn + unit) in Hrun.
  cbv beta iota in Hrun. run_bind_in Hrun.
  destruct (mkdir_parents (cwd // "logs") fs) as [fs1 [e|[]]] eqn:E1;
    [discriminate Hrun|].
  run_bind_in Hrun.
  pose proof (plan_actions_read_only (root args) (root args) rules
                (rename args) fs1) as Hro.
  destruct (plan_actions (root args) (root args) rules (rename args) fs1)
    as [fs1' [e|plans]] eqn:E2; simpl in Hro; subst fs1';
    [discriminate Hrun|].
  run_bind_in Hrun.
  destruct (write_log plans _ fs1) as [fs2 [e|[]]] eqn:E3;
    [discriminate Hrun|].
  run_bind_in Hrun.
  destruct (apply plans true false fs2) as [fs3 [e|[]]] eqn:E4;
    [discriminate Hrun|].
  injection Hrun as <- _. by exists rules, fs1, plans, fs2.
Qed.

(** Idempotent re-run of the command.  A run in place (no output option, no
    dry run) that ends well leaves nothing to plan for the rules it has
    loaded, provided the category names, the fallback name and the target
    names of the regular files below the source root are plain, and the
    log file is not written below the source root. *)
Theorem nothing_to_plan_after_main (json_load : string -> option Rules)
    (cwd : Path) (timestamp : string) (args : Args) (rules : Rules)
    (fs fs' : FS) (lines : list string) :
  output args = None -> dry_run args = false ->
  (load_rules json_load (rules_file args) fs).2 = inr rules ->
  Forall plain_name (fst <$> rules_folders rules) ->
  plain_name (rules_unknown rules) ->
  plain_targets (rename args) (root args) fs ->
  ¬ root args `prefix_of` log_path_of cwd timestamp (root args) (root args) ->
  main json_load cwd timestamp args fs = (fs', inr lines) ->
  plan_actions (root args) (root args) rules (rename args) fs' = (fs', inr []).
Proof.
  intros Hout Hdry Hload Hcat Hunk Hplain Hlog Hrun.
  destruct (main_in_place_steps _ _ _ _ _ _ _ Hout Hdry Hrun)
    as (rules' & fs1 & plans & fs2 & El & E1 & E2 & E3 & E4).
  rewrite El in Hload. injection Hload as ->.
  refine (proj1 (rerun_empty (root args) rules (rename args) fs1 fs2 fs' plans
                   Hcat Hunk _ _ _ E4)).
  - apply Forall_forall. intros item Hin.
    apply list_elem_of_filter in Hin as [Hs Hin].
    apply Is_true_true in Hs.
    apply elem_of_rglob_on in Hin as [Hpre [v Hv]].
    unfold survives in Hs. apply andb_true_iff in Hs as [Hs _].
    apply andb_true_iff in Hs as [Hd _]. apply negb_true_iff in Hd.
    destruct v as [data|].
    + apply (mkdir_parents_files _ _ _ _ E1) in Hv.
      by apply (Hplain item (File data) Hv).
    + unfold is_dir_on, stat in Hd.
      destruct item; [by apply strict_prefix_nil in Hpre|].
      rewrite Hv in Hd. by rewrite bool_decide_eq_true_2 in Hd.
  - by rewrite E2.
  - intros q data Hpre Hq.
    destruct (write_log_files _ _ _ _ _ E3 q data Hq) as [->|Hq1]; [|done].
    destruct Hlog. by destruct Hpre.
Qed.

(** The scenario of section 8 run from /home: nothing is left to plan. *)
Lemma scenario_run_twice :
  let args := {| root := ["inbox"]; rules_file := ["rules.json"];
                 dry_run := false; rename := false; output := None |} in
  let fs := <[ ["rules.json"] := File "{}" ]> Scenario.disk in
  let run := main (fun _ => Some Scenario.rules) ["home"] "20240101_120000"
               args fs in
  run.2 = inr [ "Planned actions: 2";
                "Log: /home/logs/organize_log_inbox_to_inbox_20240101_120000.txt";
                "Mode: IN-PLACE move" ]
  ∧ (plan_actions ["inbox"] ["inbox"] Scenario.rules false run.1).2 = inr [].
Proof.
  intros args fs run. split; [vm_compute; reflexivity|].
  refine (f_equal snd (nothing_to_plan_after_main (fun _ => Some Scenario.rules)
    ["home"] "20240101_120000" args Scenario.rules fs run.1
    [ "Planned actions: 2";
      "Log: /home/logs/organize_log_inbox_to_inbox_20240101_120000.txt";
      "Mode: IN-PLACE move" ] _ _ _ _ _ _ _ _)).
  - reflexivity.
  - reflexivity.
  - vm_compute. reflexivity.
  - by_evaluation.
  - by_evaluation.
  - by_evaluation.
  - by_evaluation.
  - apply injective_projections; [reflexivity|]. vm_compute. reflexivity.
Defined.

(** Run from inside the source root, the command writes its log below the
    source root, and the next plan takes the log file. *)
Lemma log_inside_source_is_planned :
  let args := {| root := ["inbox"]; rules_file := ["rules.json"];
                 dry_run := false; rename := false; output := None |} in
  let fs := <[ ["rules.json"] := File "{}" ]> Scenario.disk in
  let run := main (fun _ => Some Scenario.rules) ["inbox"] "20240101_120000"
               args fs in
  (plan_actions ["inbox"] ["inbox"] Scenario.rules false run.1).2
  = inr [ {| src := ["inbox"; "logs";
                     "organize_log_inbox_to_inbox_20240101_120000.txt"];
             dst := ["inbox"; "Docs";
                     "organize_log_inbox_to_inbox_20240101_120000.txt"] |} ].
Proof. intros args fs run. vm_compute. reflexivity. Qed.

(** * Further properties of the code *)

(** ** Names that the slugifier leaves alone, and slugs as path components *)

Lemma chars_length (s : string) :
  length (list_ascii_of_string s) = String.length s.
Proof. induction s as [|c s IH]; simpl; [done|]. by rewrite IH. Qed.


Lemma slug_fixed (x : string) :
  x ≠ "" ->
  Forall (fun c => slug_char c = true) (list_ascii_of_string x) ->
  SlugSpec.no_double_underscore (list_ascii_of_string x) ->
  slugify x = x.
Proof.
  intros Hne Hall Hnd. rewrite slugify_refines. unfold SlugSpec.spec_slugify.
  rewrite (trim_fixed _ Hall), (spaces_fixed _ Hall), (filter_fixed _ Hall),
    (collapse_fixed _ Hnd).
  destruct (list_ascii_of_string x) as [|c l] eqn:E.
  - destruct Hne. apply chars_inj. by rewrite E.
  - rewrite <- E. apply string_of_list_ascii_of_string.
Qed.

(** The names [slugify] leaves as they are: exactly the non-empty names
    made of allowed characters with no two underscores in a row. *)
Theorem slugify_fixed_points (x : string) :
  slugify x = x
  <-> x ≠ ""
      ∧ Forall (fun c => slug_char c = true) (list_ascii_of_string x)
      ∧ SlugSpec.no_double_underscore (list_ascii_of_string x).
Proof.
  split.
  - intros H. destruct (slugify_shape x) as (Hall & Hnd & Hne).
    rewrite H in Hall, Hnd, Hne. done.
  - intros (Hne & Hall & Hnd). by apply slug_fixed.
Qed.




(** ** The bucket resolver is blind to case *)

Lemma lower_char_idem (c : ascii) :
  Str.lower_char (Str.lower_char c) = Str.lower_char c.
Proof. destruct c as [[] [] [] [] [] [] [] []]; reflexivity. Qed.

Lemma lower_idem (s : string) : Str.lower (Str.lower s) = Str.lower s.
Proof.
  induction s as [|c s IH]; simpl; [done|]. by rewrite lower_char_idem, IH.
Qed.

Lemma bucket_loop_same_lower (ext : string)
    (items items' : list (string * list string)) (fallback : string) :
  Forall2 (fun fe fe' => fe.1 = fe'.1 ∧ Str.lower <$> fe.2 = Str.lower <$> fe'.2)
    items items' ->
  bucket_loop ext items fallback = bucket_loop ext items' fallback.
Proof.
  induction 1 as [|[f e] [f' e'] items items' [Hf He] Hrest IH]; [done|].
  simpl in *. subst f'. by rewrite He, IH.
Qed.

(** The answer of [extension_bucket] depends on the extension asked for,
    and on the extensions the rules list, only up to the case of letters;
    it is always a member of the organized-folder set of [plan_actions];
    and rules without a "folders" entry send everything to the fallback. *)
Theorem extension_bucket_case_blind (ext : string) (rules : Rules) :
  (∀ ext', Str.lower ext' = Str.lower ext ->
           extension_bucket ext' rules = extension_bucket ext rules)
  ∧ extension_bucket (Str.lower ext) rules = extension_bucket ext rules
  ∧ (∀ rules',
        rules_unknown rules' = rules_unknown rules ->
        Forall2 (fun fe fe' => fe.1 = fe'.1
                               ∧ Str.lower <$> fe.2 = Str.lower <$> fe'.2)
          (rules_folders rules) (rules_folders rules') ->
        extension_bucket ext rules' = extension_bucket ext rules)
  ∧ extension_bucket ext rules ∈ organized_top_folders rules
  ∧ (folders rules = None ->
     extension_bucket ext rules = default "Other" (unknown_folder rules)).
Proof.
  unfold extension_bucket. split; [|split; [|split; [|split]]].
  - by intros ext' ->.
  - by rewrite lower_idem.
  - intros rules' -> H. symmetry. by apply bucket_loop_same_lower.
  - apply extension_bucket_organized.
  - unfold rules_folders, rules_unknown. by intros ->.
Qed.

(** ".JPG", ".Jpg" and ".jpg" fall into the same bucket. *)
Lemma extension_bucket_case_blind_example :
  extension_bucket ".Jpg" Scenario.rules = extension_bucket ".JPG" Scenario.rules
  ∧ extension_bucket ".JPG" Scenario.rules = "Images".
Proof.
  split; [|reflexivity].
  apply (proj1 (extension_bucket_case_blind ".JPG" Scenario.rules)).
  reflexivity.
Defined.

(** ** Numbered names: distinct, and with the extension kept *)

Lemma append_assoc (a b c : string) : (a +:+ b) +:+ c = a +:+ (b +:+ c).
Proof. apply chars_inj. by rewrite !chars_append, app_assoc. Qed.

Lemma append_length (a b : string) :
  String.length (a +:+ b) = String.length a + String.length b.
Proof. by rewrite <- !chars_length, chars_append, length_app. Qed.

Lemma append_inv_head (a b c : string) : a +:+ b = a +:+ c -> b = c.
Proof.
  intros H. apply chars_inj. apply (f_equal list_ascii_of_string) in H.
  rewrite !chars_append in H. by apply app_inv_head in H.
Qed.

Lemma append_inv_tail (a b c : string) : a +:+ c = b +:+ c -> a = b.
Proof.
  intros H. apply chars_inj. apply (f_equal list_ascii_of_string) in H.
  rewrite !chars_append in H. by apply app_inv_tail in H.
Qed.

Lemma to_uint_nonnil (i : N) : N.to_uint i ≠ Decimal.Nil.
Proof. destruct i; [done|]. apply DecimalPos.Unsigned.to_uint_nonnil. Qed.

Lemma decimal_inj (i j : N) : Str.decimal i = Str.decimal j -> i = j.
Proof.
  unfold Str.decimal. intros H.
  apply (f_equal NilZero.uint_of_string) in H.
  rewrite !NilZero.usu in H by apply to_uint_nonnil.
  injection H as H. by apply DecimalN.Unsigned.to_uint_inj.
Qed.

Lemma append_nil_l (a : string) : "" +:+ a = a.
Proof. reflexivity. Qed.

Lemma append_cons (c : ascii) (a b : string) :
  String c a +:+ b = String c (a +:+ b).
Proof. reflexivity. Qed.

Lemma append_nil_r (a : string) : a +:+ "" = a.
Proof. apply chars_inj. by rewrite chars_append, app_nil_r. Qed.

Lemma rfind_dot_append (a b : string) :
  Str.rfind_dot (a +:+ b)
  = match Str.rfind_dot b with
    | Some j => Some (String.length a + j)
    | None => Str.rfind_dot a
    end.
Proof.
  induction a as [|c a IH]; rewrite ?append_nil_l, ?append_cons; simpl.
  - by destruct (Str.rfind_dot b).
  - rewrite IH. by destruct (Str.rfind_dot b).
Qed.

Lemma rfind_dot_split (s : string) (i : nat) :
  Str.rfind_dot s = Some i ->
  ∃ a b, s = a +:+ String "." b ∧ String.length a = i ∧ Str.rfind_dot b = None.
Proof.
  revert i. induction s as [|c s IH]; intros i H; [discriminate H|].
  simpl in H. destruct (Str.rfind_dot s) as [j|] eqn:E.
  - injection H as <-. destruct (IH j eq_refl) as (a & b & -> & <- & Hb).
    by exists (String c a), b.
  - destruct (Ascii.eqb c ".") eqn:Ec; [|discriminate H].
    injection H as <-. apply Ascii.eqb_eq in Ec as ->. by exists "", s.
Qed.

Lemma substring_append_l (a b : string) :
  substring 0 (String.length a) (a +:+ b) = a.
Proof.
  induction a as [|c a IH]; rewrite ?append_nil_l, ?append_cons; simpl;
    [by destruct b|]. by rewrite IH.
Qed.

Lemma substring_all (b : string) : substring 0 (String.length b) b = b.
Proof. induction b as [|c b IH]; simpl; [done|]. by rewrite IH. Qed.

Lemma substring_append_r (a b : string) :
  substring (String.length a) (String.length b) (a +:+ b) = b.
Proof.
  induction a as [|c a IH]; rewrite ?append_nil_l, ?append_cons; simpl;
    [apply substring_all|done].
Qed.

Lemma rfind_dot_decimal (i : N) : Str.rfind_dot (Str.decimal i) = None.
Proof.
  unfold Str.decimal.
  assert (∀ d, Str.rfind_dot (NilEmpty.string_of_uint d) = None) as H.
  { induction d; simpl; by rewrite ?IHd. }
  destruct (N.to_uint i); first done; apply H.
Qed.

Lemma suffix_of_dot (a b : string) :
  a ≠ "" -> b ≠ "" -> Str.rfind_dot b = None ->
  Pth.suffix_start (a +:+ String "." b) = Some (String.length a)
  ∧ Pth.suffix_of (a +:+ String "." b) = String "." b
  ∧ Pth.stem_of (a +:+ String "." b) = a.
Proof.
  intros Ha Hb Hr.
  assert (Pth.suffix_start (a +:+ String "." b) = Some (String.length a)) as Hs.
  { unfold Pth.suffix_start. rewrite rfind_dot_append. simpl. rewrite Hr. simpl.
    rewrite Nat.add_0_r, append_length. simpl.
    destruct a; [done|]. destruct b; [done|]. simpl.
    rewrite (proj2 (Nat.ltb_lt _ _)) by lia. done. }
  split; [done|]. unfold Pth.suffix_of, Pth.stem_of. rewrite Hs.
  split; [|apply substring_append_l].
  rewrite append_length.
  replace (String.length a + String.length (String "." b) - String.length a)
    with (String.length (String "." b)) by lia.
  apply substring_append_r.
Qed.

Lemma ends_with_dot_append (a : string) : ends_with_dot (a +:+ ".") = true.
Proof.
  induction a as [|c a IH]; [done|].
  change (String c a +:+ ".") with (String c (a +:+ ".")).
  cbn [ends_with_dot]. destruct (a +:+ ".") eqn:E; [|done].
  by destruct a.
Qed.

Lemma suffix_start_some (nm : string) (i : nat) :
  Pth.suffix_start nm = Some i ->
  ∃ a b, nm = a +:+ String "." b ∧ a ≠ "" ∧ b ≠ "" ∧ Str.rfind_dot b = None.
Proof.
  unfold Pth.suffix_start. destruct (Str.rfind_dot nm) as [j|] eqn:E; [|done].
  destruct (rfind_dot_split _ _ E) as (a & b & -> & <- & Hb).
  rewrite append_length. simpl. intros H.
  destruct (Nat.ltb 0 (String.length a)) eqn:E1; [|discriminate H].
  destruct (Nat.ltb (String.length a) _) eqn:E2; [|discriminate H].
  apply Nat.ltb_lt in E1, E2.
  exists a, b. split; [done|]. split; [intros ->; simpl in *; lia|].
  split; [intros ->; simpl in *; lia|done].
Qed.

Lemma stem_suffix (nm : string) : Pth.stem_of nm +:+ Pth.suffix_of nm = nm.
Proof.
  destruct (Pth.suffix_start nm) as [i|] eqn:E.
  - destruct (suffix_start_some _ _ E) as (a & b & -> & Ha & Hb & Hr).
    destruct (suffix_of_dot a b Ha Hb Hr) as (_ & -> & ->). done.
  - unfold Pth.stem_of, Pth.suffix_of. rewrite E. apply append_nil_r.
Qed.

Lemma numbered_suffix (nm : string) (i : N) :
  ends_with_dot nm = false ->
  Pth.suffix_of (numbered (Pth.stem_of nm) i (Pth.suffix_of nm))
  = Pth.suffix_of nm
  ∧ Pth.stem_of (numbered (Pth.stem_of nm) i (Pth.suffix_of nm))
    = Pth.stem_of nm +:+ "_" +:+ Str.decimal i.
Proof.
  intros Hend. unfold numbered.
  destruct (Pth.suffix_start nm) as [k|] eqn:E.
  - destruct (suffix_start_some _ _ E) as (a & b & -> & Ha & Hb & Hr).
    destruct (suffix_of_dot a b Ha Hb Hr) as (_ & -> & ->).
    destruct (suffix_of_dot (a +:+ "_" +:+ Str.decimal i) b) as (_ & H1 & H2);
      [by destruct a | done | done |].
    rewrite !append_assoc in H1, H2. by rewrite H1, H2.
  - assert (Pth.suffix_of nm = "" ∧ Pth.stem_of nm = nm) as [-> ->].
    { unfold Pth.suffix_of, Pth.stem_of. by rewrite E. }
    rewrite append_nil_r.
    assert (Pth.suffix_start (nm +:+ "_" +:+ Str.decimal i) = None) as Hs.
    { unfold Pth.suffix_start in *. rewrite rfind_dot_append.
      change ("_" +:+ Str.decimal i) with (String "_" (Str.decimal i)).
      cbn [Str.rfind_dot]. rewrite rfind_dot_decimal. simpl.
      destruct (Str.rfind_dot nm) as [j|] eqn:Er; [|done].
      destruct (Nat.ltb 0 j) eqn:E1; [|done]. simpl in E.
      destruct (Nat.ltb j (String.length nm - 1)) eqn:E2; [done|].
      apply Nat.ltb_lt in E1. apply Nat.ltb_ge in E2.
      destruct (rfind_dot_split _ _ Er) as (a & b & -> & <- & Hb).
      rewrite append_length in E2. simpl in E2.
      destruct b; [|simpl in E2; lia].
      by rewrite ends_with_dot_append in Hend. }
    unfold Pth.suffix_of, Pth.stem_of. by rewrite Hs.
Qed.

Lemma name_snoc (l : Path) (x : string) : Pth.name (l ++ [x]) = x.
Proof. unfold Pth.name. by rewrite last_snoc. Qed.

Lemma parent_snoc (l : Path) (x : string) : Pth.parent (l ++ [x]) = l.
Proof. unfold Pth.parent. apply removelast_last. Qed.

Lemma parent_name (p : Path) : p ≠ [] -> Pth.parent p ++ [Pth.name p] = p.
Proof.
  intros Hp. destruct (last p) as [c|] eqn:E.
  - apply last_Some in E as [l ->]. by rewrite parent_snoc, name_snoc.
  - by apply last_None in E.
Qed.

Lemma numbered_inj (stem suffix : string) (i j : N) :
  numbered stem i suffix = numbered stem j suffix -> i = j.
Proof.
  unfold numbered. intros H.
  apply append_inv_head, append_inv_head, append_inv_tail in H.
  by apply decimal_inj.
Qed.

Lemma numbered_longer (nm : string) (i : N) :
  String.length nm
  < String.length (numbered (Pth.stem_of nm) i (Pth.suffix_of nm)).
Proof.
  unfold numbered. rewrite <- (stem_suffix nm) at 1.
  rewrite !append_length. simpl. lia.
Qed.

Lemma candidate_inj (p : Path) (i j : N) :
  candidate p i = candidate p j -> i = j.
Proof.
  unfold candidate. intros H. apply app_inv_head in H.
  injection H as H. by apply numbered_inj in H.
Qed.

Lemma candidate_fresh (p : Path) (i : N) : p ≠ [] -> candidate p i ≠ p.
Proof.
  intros Hp H. apply (f_equal Pth.name) in H.
  unfold candidate in H. rewrite name_snoc in H.
  pose proof (numbered_longer (Pth.name p) i) as Hl.
  unfold Pth.stem, Pth.suffix in H. rewrite H in Hl. lia.
Qed.

(** What [unique_path] answers.  The answer is not on disk and lies in the
    directory of the path asked for; it is that path when it is free, and
    otherwise the first free numbered sibling, which differs from the path;
    the numbered siblings are pairwise distinct; and a numbered name keeps
    the suffix of the name, unless the name ends in a dot: "foo." becomes
    "foo._2", whose suffix is "._2". *)
Theorem unique_path_answer (fs fs' : FS) (p t : Path) :
  wf_path p -> p ≠ [] ->
  unique_path p fs = (fs', inr t) ->
  exists_on fs t = false
  ∧ Pth.parent t = Pth.parent p
  ∧ ((exists_on fs p = false ∧ t = p)
     ∨ (exists_on fs p = true
        ∧ ∃ i, (2 <= i < 10000)%N ∧ t = candidate p i ∧ t ≠ p
               ∧ ∀ j, (2 <= j < i)%N -> exists_on fs (candidate p j) = true))
  ∧ (ends_with_dot (Pth.name p) = false -> Pth.suffix t = Pth.suffix p)
  ∧ (∀ i j, candidate p i = candidate p j -> i = j)
  ∧ Pth.suffix (candidate ["Docs"; "foo."] 2) = "._2".
Proof.
  intros Hwf Hp Hrun.
  split; [by apply unique_path_free in Hrun|].
  assert ((exists_on fs p = false ∧ t = p)
     ∨ (exists_on fs p = true
        ∧ ∃ i, (2 <= i < 10000)%N ∧ t = candidate p i ∧ t ≠ p
               ∧ ∀ j, (2 <= j < i)%N -> exists_on fs (candidate p j) = true))
    as Hcases.
  { destruct (exists_on fs p) eqn:Ep.
    - right. split; [done|]. rewrite (unique_path_present _ _ Ep) in Hrun.
      apply (unique_loop_returns fs p Hwf Hp) in Hrun
        as (k & Hk & -> & _ & Htaken).
      exists k. rewrite max_attempts_range in Hk.
      split; [lia|]. split; [done|]. split; [by apply candidate_fresh|done].
    - left. rewrite (unique_path_absent _ _ Ep) in Hrun.
      by injection Hrun as _ <-. }
  split; [|split; [exact Hcases|split; [|split; [|reflexivity]]]].
  - destruct Hcases as [[_ ->] | [_ (i & _ & -> & _)]]; [done|].
    apply parent_snoc.
  - intros Hend. destruct Hcases as [[_ ->] | [_ (i & _ & -> & _)]]; [done|].
    unfold Pth.suffix at 1, candidate. rewrite name_snoc.
    by apply numbered_suffix.
  - apply candidate_inj.
Qed.

(** x.txt and x_2.txt are taken; the answer x_3.txt keeps the suffix. *)
Lemma unique_path_answer_example :
  Pth.suffix ["out"; "Docs"; "x_3.txt"] = ".txt".
Proof.
  refine (proj1 (proj2 (proj2 (proj2 (unique_path_answer Scenario.disk_taken
            Scenario.disk_taken ["out"; "Docs"; "x.txt"]
            ["out"; "Docs"; "x_3.txt"] _ _ _)))) _).
  - by_evaluation.
  - discriminate.
  - apply injective_projections;
      [apply unique_path_read_only | vm_compute; reflexivity].
  - reflexivity.
Defined.

(** ** The entries of a plan *)

Lemma rglob_on_NoDup (fs : FS) (root : Path) : NoDup (rglob_on fs root).
Proof. unfold rglob_on. apply NoDup_filter, NoDup_fst_map_to_list. Qed.

Lemma survives_file (rules : Rules) (in_root : Path) (fs : FS) (item : Path) :
  item ∈ filter (survives rules in_root fs) (rglob_on fs in_root) ->
  strict prefix in_root item ∧ (∃ data, fs !! item = Some (File data))
  ∧ hidden item = false.
Proof.
  intros Hin. apply list_elem_of_filter in Hin as [Hs Hin].
  apply Is_true_true in Hs. apply elem_of_rglob_on in Hin as [Hpre [v Hv]].
  unfold survives in Hs. apply andb_true_iff in Hs as [Hs _].
  apply andb_true_iff in Hs as [Hd Hh]. apply negb_true_iff in Hd, Hh.
  split; [done|]. split; [|done].
  destruct v as [data|]; [by exists data|].
  unfold is_dir_on, stat in Hd.
  destruct item; [by apply strict_prefix_nil in Hpre|].
  rewrite Hv in Hd. by rewrite bool_decide_eq_true_2 in Hd.
Qed.

Lemma unique_path_name (fs fs' : FS) (p t : Path) :
  unique_path p fs = (fs', inr t) ->
  t = p ∨ ∃ i, t = Pth.parent p ++ [numbered (Pth.stem p) i (Pth.suffix p)].
Proof.
  intros Hrun. destruct (exists_on fs p) eqn:Ep.
  - rewrite (unique_path_present _ _ Ep) in Hrun. right.
    generalize dependent 2%N. generalize max_attempts.
    induction n as [|n IH]; intros i Hrun; [discriminate Hrun|].
    cbn [unique_loop] in Hrun. rewrite run_bind in Hrun. unfold lift in Hrun.
    destruct (Pth.with_name p _) as [e|c] eqn:Ew; [discriminate Hrun|].
    rewrite run_bind in Hrun. unfold path_exists, reads in Hrun.
    destruct (exists_on fs c) eqn:Ec; cbn [negb] in Hrun.
    + by apply (IH _ Hrun).
    + injection Hrun as _ <-. unfold Pth.with_name in Ew.
      repeat case_match; try discriminate Ew. injection Ew as <-. by exists i.
  - rewrite (unique_path_absent _ _ Ep) in Hrun. left.
    by injection Hrun as _ <-.
Qed.

Lemma parent_two (l : Path) (b n : string) : Pth.parent (l ++ [b; n]) = l ++ [b].
Proof.
  change [b; n] with ([b] ++ [n]). by rewrite app_assoc, parent_snoc.
Qed.

Lemma name_two (l : Path) (b n : string) : Pth.name (l ++ [b; n]) = n.
Proof.
  change [b; n] with ([b] ++ [n]). by rewrite app_assoc, name_snoc.
Qed.

Lemma stem_two (l : Path) (b n : string) :
  Pth.stem (l ++ [b; n]) = Pth.stem_of n.
Proof. unfold Pth.stem. by rewrite name_two. Qed.

Lemma suffix_two (l : Path) (b n : string) :
  Pth.suffix (l ++ [b; n]) = Pth.suffix_of n.
Proof. unfold Pth.suffix. by rewrite name_two. Qed.

(** The entries of a plan.  No file is planned twice; every source is a
    regular file strictly below the source root whose own name is not
    hidden; and with plain category and target names every destination is
    out_root / bucket of the source's extension / the target name or a
    numbered form of it, with the suffix of the target name kept unless
    that name ends in a dot. *)
Theorem plan_actions_entries (in_root out_root : Path) (rules : Rules)
    (rename : bool) (fs : FS) (plans : list MovePlan) :
  (plan_actions in_root out_root rules rename fs).2 = inr plans ->
  NoDup (src <$> plans)
  ∧ Forall (fun pl => strict prefix in_root (src pl)
                      ∧ (∃ data, fs !! src pl = Some (File data))
                      ∧ hidden (src pl) = false) plans
  ∧ (Forall plain_name (fst <$> rules_folders rules) ->
     plain_name (rules_unknown rules) ->
     Forall (fun pl =>
       plain_name (target_name rename (src pl)) ->
       ∃ n, dst pl = out_root ++ [extension_bucket (Pth.suffix (src pl)) rules; n]
            ∧ (n = target_name rename (src pl)
               ∨ ∃ i, n = numbered (Pth.stem_of (target_name rename (src pl))) i
                            (Pth.suffix_of (target_name rename (src pl))))
            ∧ (ends_with_dot (target_name rename (src pl)) = false ->
               Pth.suffix (dst pl)
               = Pth.suffix_of (target_name rename (src pl))))
       plans).
Proof.
  rewrite plan_actions_spec. simpl. intros Hrun.
  apply resolve_all_inr in Hrun as [Hsrc Hdst].
  split; [|split].
  - rewrite Hsrc. apply NoDup_filter, rglob_on_NoDup.
  - apply Forall_forall. intros pl Hpl. apply (survives_file rules).
    rewrite <- Hsrc. by apply list_elem_of_fmap_2.
  - intros Hcat Hunk. eapply Forall_impl; [exact Hdst|].
    intros pl Hpl Htn. simpl in Hpl.
    pose proof (plain_bucket rules (Pth.suffix (src pl)) Hcat Hunk) as Hb.
    rewrite (desired_target_plain _ _ _ _ Hb Htn) in Hpl.
    apply unique_path_name in Hpl as [-> | [i ->]].
    + eexists. split; [done|]. split; [by left|]. intros _. apply suffix_two.
    + exists (numbered (Pth.stem_of (target_name rename (src pl))) i
                (Pth.suffix_of (target_name rename (src pl)))).
      rewrite parent_two, stem_two, suffix_two, <- app_assoc.
      split; [done|]. split; [right; by exists i|]. intros Hend.
      change (?l ++ [?b] ++ [?n]) with (l ++ [b; n]). rewrite suffix_two.
      by apply numbered_suffix.
Qed.

(** The plan of the scenario of section 8. *)
Lemma plan_actions_entries_scenario :
  NoDup (src <$>
    [ {| src := ["inbox"; "notes.txt"]; dst := ["inbox"; "Docs"; "notes.txt"] |};
      {| src := ["inbox"; "a.jpg"]; dst := ["inbox"; "Images"; "a.jpg"] |} ]).
Proof.
  apply (plan_actions_entries Scenario.inbox Scenario.inbox Scenario.rules
           false Scenario.disk).
  vm_compute. reflexivity.
Defined.

(** ** The executor on a plan without collisions *)

Lemma stat_lookup (fs : FS) (p : Path) : p ≠ [] -> stat fs p = fs !! p.
Proof. by destruct p. Qed.

Lemma is_dir_on_lookup (fs : FS) (p : Path) :
  fs !! p = Some Dir -> is_dir_on fs p = true.
Proof.
  intros H. unfold is_dir_on. apply bool_decide_eq_true_2.
  destruct p; [done|]. by rewrite stat_lookup.
Qed.

Lemma is_dir_on_agree (fs fs' : FS) (p : Path) :
  (p ≠ [] -> fs' !! p = fs !! p) -> is_dir_on fs' p = is_dir_on fs p.
Proof.
  intros H. unfold is_dir_on. destruct p; [done|].
  rewrite !stat_lookup by done. by rewrite H.
Qed.

Lemma mkdir_parents_child (fs : FS) (p : Path) :
  p ≠ [] -> fs !! p = None -> is_dir_on fs (Pth.parent p) = true ->
  mkdir_parents p fs = (<[p := Dir]> fs, inr tt).
Proof.
  intros Hp Hnone Hd. unfold mkdir_parents.
  destruct (reverse p) as [|c rp] eqn:E.
  { apply (f_equal reverse) in E. rewrite reverse_involutive in E. done. }
  cbn [mkdir_parents_rev]. rewrite <- E, reverse_involutive.
  unfold os_mkdir, exists_on. rewrite stat_lookup by done. rewrite Hnone.
  rewrite bool_decide_eq_false_2 by (by intros [? ?]).
  apply bool_decide_eq_true in Hd. by rewrite Hd.
Qed.

(** Making the category folder below a directory: it is a directory
    afterwards and nothing else has changed. *)
Lemma mkdir_category (fs : FS) (out_root : Path) (b : string) :
  is_dir_on fs out_root = true ->
  is_file_on fs (out_root ++ [b]) = false ->
  ∃ fs1, mkdir_parents (out_root ++ [b]) fs = (fs1, inr tt)
         ∧ fs1 !! (out_root ++ [b]) = Some Dir
         ∧ ∀ q, q ≠ out_root ++ [b] -> fs1 !! q = fs !! q.
Proof.
  intros Hd Hf. unfold is_file_on in Hf.
  assert (out_root ++ [b] ≠ []) as Hne by (by destruct out_root).
  rewrite stat_lookup in Hf by done.
  destruct (fs !! (out_root ++ [b])) as [[data|]|] eqn:E; [done| |].
  - exists fs. split; [|by split].
    apply mkdir_parents_existing. by apply is_dir_on_lookup.
  - exists (<[out_root ++ [b] := Dir]> fs). split; [|split].
    + apply mkdir_parents_child; [done|done|]. by rewrite parent_snoc.
    + by rewrite lookup_insert_eq.
    + intros q Hq. by rewrite lookup_insert_ne.
Qed.

Lemma shutil_move_file (s d : Path) (data : string) (fs : FS) :
  s ≠ [] -> fs !! s = Some (File data) ->
  d ≠ [] -> fs !! d = None ->
  is_dir_on fs (Pth.parent d) = true ->
  shutil_move s d fs = (<[d := File data]> (delete s fs), inr tt).
Proof.
  intros Hs Hsd Hd Hdn Hp. unfold shutil_move, real_dst.
  assert (is_dir_on fs d = false) as ->.
  { unfold is_dir_on. rewrite stat_lookup, Hdn by done.
    by apply bool_decide_eq_false_2. }
  cbn [andb]. rewrite stat_lookup, Hsd by done.
  apply bool_decide_eq_true in Hp. by rewrite Hp.
Qed.

Lemma shutil_copy2_file (s d : Path) (data : string) (fs : FS) :
  s ≠ [] -> fs !! s = Some (File data) ->
  d ≠ [] -> fs !! d = None ->
  is_dir_on fs (Pth.parent d) = true ->
  shutil_copy2 s d fs = (<[d := File data]> fs, inr tt).
Proof.
  intros Hs Hsd Hd Hdn Hp. unfold shutil_copy2, real_dst.
  assert (is_dir_on fs d = false) as ->.
  { unfold is_dir_on. rewrite stat_lookup, Hdn by done.
    by apply bool_decide_eq_false_2. }
  rewrite bool_decide_eq_false_2 by congruence. cbn [andb].
  rewrite run_bind. unfold read_file. rewrite stat_lookup, Hsd by done.
  unfold write_file. rewrite stat_lookup, Hdn by done.
  apply bool_decide_eq_true in Hp. by rewrite Hp.
Qed.

Lemma is_file_on_lookup (fs : FS) (p : Path) (data : string) :
  fs !! p = Some (File data) -> is_file_on fs p = false -> p = [].
Proof.
  intros H Hf. destruct p; [done|]. unfold is_file_on in Hf.
  rewrite stat_lookup, H in Hf by done. done.
Qed.

Lemma two_neq_one (l : Path) (b n b' : string) : l ++ [b; n] ≠ l ++ [b'].
Proof. intros H. apply app_inv_head in H. discriminate H. Qed.

Lemma two_neq_root (l : Path) (b n : string) : l ++ [b; n] ≠ l.
Proof.
  intros H. apply (f_equal length) in H. rewrite length_app in H.
  simpl in H. lia.
Qed.

Lemma one_neq_root (l : Path) (b : string) : l ++ [b] ≠ l.
Proof.
  intros H. apply (f_equal length) in H. rewrite length_app in H.
  simpl in H. lia.
Qed.

(** The executor on a list of moves that are ready, with pairwise distinct
    sources and destinations: it runs to its end, every destination holds
    what its source held, every other entry stays, nothing appears but the
    destinations and their folders, and in place the sources are gone. *)
Lemma apply_loop_carries (in_place : bool) (out_root : Path)
    (plans : list MovePlan) (fs : FS) :
  is_dir_on fs out_root = true ->
  NoDup (dst <$> plans) -> NoDup (src <$> plans) ->
  Forall (ready out_root fs) plans ->
  ∃ fs', apply_loop in_place plans fs = (fs', inr tt)
    ∧ (∀ pl, pl ∈ plans -> fs' !! dst pl = fs !! src pl)
    ∧ (∀ q n, fs !! q = Some n ->
              (in_place = true -> q ∉ src <$> plans) -> fs' !! q = Some n)
    ∧ (∀ q, fs !! q = None -> q ∉ dst <$> plans ->
            q ∉ (fun pl => Pth.parent (dst pl)) <$> plans -> fs' !! q = None)
    ∧ (in_place = true -> ∀ pl, pl ∈ plans -> fs' !! src pl = None).
Proof.
  revert fs. induction plans as [|pl rest IH]; intros fs Hroot Hnd Hns Hall.
  { exists fs. split; [done|]. split; [by intros pl Hpl%elem_of_nil|].
    split; [done|]. split; [done|]. by intros _ pl Hpl%elem_of_nil. }
  rewrite fmap_cons in Hnd, Hns.
  apply NoDup_cons in Hnd as [Hd_fresh Hnd], Hns as [Hs_fresh Hns].
  apply Forall_cons in Hall as [Hpl Hrest].
  destruct Hpl as ((b & n & Hd) & Hsne & (data & Hs) & Hfree & Hpar).
  rewrite Hd, parent_two in Hpar.
  destruct (mkdir_category fs out_root b Hroot Hpar) as (fs1 & E1 & Hb1 & Hsame1).
  assert (∀ q v, fs !! q = Some v -> fs1 !! q = Some v) as Hkeep1.
  { intros q v Hq. destruct (decide (q = out_root ++ [b])) as [->|Hne];
      [|by rewrite Hsame1].
    destruct v as [dq|]; [|done].
    apply (is_file_on_lookup _ _ _ Hq) in Hpar. by destruct out_root. }
  assert (dst pl ≠ []) as Hdne by (rewrite Hd; by destruct out_root).
  assert (fs1 !! dst pl = None) as Hfree1.
  { rewrite Hsame1; [done|]. rewrite Hd. apply two_neq_one. }
  assert (is_dir_on fs1 (Pth.parent (dst pl)) = true) as Hpd1.
  { rewrite Hd, parent_two. by apply is_dir_on_lookup. }
  set (fs2 := if in_place then <[dst pl := File data]> (delete (src pl) fs1)
              else <[dst pl := File data]> fs1).
  assert ((if in_place then shutil_move (src pl) (dst pl)
           else shutil_copy2 (src pl) (dst pl)) fs1 = (fs2, inr tt)) as E2.
  { unfold fs2. destruct in_place.
    - apply shutil_move_file; [done | by apply Hkeep1 | done | done | done].
    - apply shutil_copy2_file; [done | by apply Hkeep1 | done | done | done]. }
  assert (src pl ≠ dst pl) as Hsd by congruence.
  (* what the step leaves of [fs] *)
  assert (∀ q, q ≠ dst pl -> q ≠ src pl -> q ≠ out_root ++ [b] ->
               fs2 !! q = fs !! q) as Hsame2.
  { intros q H1 H2 H3. unfold fs2. destruct in_place.
    - by rewrite lookup_insert_ne, lookup_delete_ne, Hsame1.
    - by rewrite lookup_insert_ne, Hsame1. }
  assert (∀ q v, fs !! q = Some v -> (in_place = true -> q ≠ src pl) ->
                 fs2 !! q = Some v) as Hkeep2.
  { intros q v Hq Hqs. assert (q ≠ dst pl) by congruence.
    unfold fs2. destruct in_place.
    - specialize (Hqs eq_refl).
      rewrite lookup_insert_ne, lookup_delete_ne by done. by apply Hkeep1.
    - rewrite lookup_insert_ne by done. by apply Hkeep1. }
  assert (∀ q, fs !! q = None -> q ≠ dst pl -> q ≠ out_root ++ [b] ->
               fs2 !! q = None) as Hnone2.
  { intros q Hq H1 H3. unfold fs2. destruct in_place.
    - rewrite lookup_insert_ne by done.
      destruct (decide (q = src pl)) as [->|H2];
        [by rewrite lookup_delete_eq|].
      by rewrite lookup_delete_ne, Hsame1.
    - by rewrite lookup_insert_ne, Hsame1. }
  assert (is_dir_on fs2 out_root = true) as Hroot2.
  { rewrite <- Hroot. apply is_dir_on_agree. intros Hne.
    destruct (fs !! out_root) as [v|] eqn:Eo.
    - apply Hkeep2; [done|]. intros _ ->.
      unfold is_dir_on in Hroot. apply bool_decide_eq_true in Hroot.
      rewrite stat_lookup in Hroot by done. congruence.
    - unfold is_dir_on in Hroot. apply bool_decide_eq_true in Hroot.
      rewrite stat_lookup in Hroot by done. congruence. }
  assert (Forall (ready out_root fs2) rest) as Hrest2.
  { apply Forall_forall. intros pl' Hin.
    rewrite Forall_forall in Hrest.
    destruct (Hrest pl' Hin)
      as ((b' & n' & Hd') & Hsne' & (data' & Hs') & Hfree' & Hpar').
    split; [by exists b', n'|]. split; [done|].
    assert (src pl' ≠ src pl) as Hss.
    { intros Heq. apply Hs_fresh. rewrite <- Heq. by apply list_elem_of_fmap_2. }
    assert (dst pl' ≠ dst pl) as Hdd.
    { intros Heq. apply Hd_fresh. rewrite <- Heq. by apply list_elem_of_fmap_2. }
    split; [exists data'; by apply Hkeep2|].
    split.
    - apply Hnone2; [done|done|]. rewrite Hd'. apply two_neq_one.
    - rewrite Hd', parent_two in *. unfold is_file_on in *.
      assert (out_root ++ [b'] ≠ []) as Hne' by (by destruct out_root).
      rewrite stat_lookup in * by done.
      destruct (decide (b' = b)) as [->|Hbb].
      + assert (fs2 !! (out_root ++ [b]) = Some Dir ∨ fs2 !! (out_root ++ [b]) = None)
          as [-> | ->]; [|done|done].
        unfold fs2. destruct in_place.
        * rewrite lookup_insert_ne by (rewrite Hd; apply two_neq_one).
          destruct (decide (out_root ++ [b] = src pl)) as [Heq|Hneq].
          -- right. rewrite Heq. apply lookup_delete_eq.
          -- left. by rewrite lookup_delete_ne.
        * left. by rewrite lookup_insert_ne by (rewrite Hd; apply two_neq_one).
      + destruct (fs !! (out_root ++ [b'])) as [[?|]|] eqn:Eb'; [done| |].
        * rewrite (Hkeep2 _ Dir Eb'); [done|]. intros _ Heq. congruence.
        * rewrite Hnone2; [done|done| |].
          -- rewrite Hd. intros Heq. symmetry in Heq. by apply two_neq_one in Heq.
          -- intros Heq. apply app_inv_head in Heq. congruence. }
  destruct (IH fs2 Hroot2 Hnd Hns Hrest2) as (fs' & Erun & Hcar & Hkeep & Hnone & Hgone).
  exists fs'. split.
  { cbn [apply_loop]. rewrite run_bind, Hd, parent_two, E1.
    rewrite run_bind. rewrite <- Hd. by rewrite E2. }
  assert (Forall (fun pl' => src pl' ≠ src pl ∧ src pl' ≠ dst pl
                             ∧ dst pl' ≠ dst pl
                             ∧ fs !! dst pl' = None
                             ∧ Pth.parent (dst pl') ≠ src pl
                             ∧ (∃ v, fs !! src pl' = Some v)) rest) as Hdiff.
  { apply Forall_forall. intros pl' Hin. rewrite Forall_forall in Hrest.
    destruct (Hrest pl' Hin)
      as ((b' & n' & Hd') & Hsne' & (data' & Hs') & Hfree' & Hpar').
    repeat split.
    - intros Heq. apply Hs_fresh. rewrite <- Heq. by apply list_elem_of_fmap_2.
    - congruence.
    - intros Heq. apply Hd_fresh. rewrite <- Heq. by apply list_elem_of_fmap_2.
    - done.
    - intros Heq. rewrite Heq in Hpar'.
      by apply (is_file_on_lookup _ _ _ Hs) in Hpar'.
    - by eexists. }
  rewrite Forall_forall in Hdiff.
  assert (dst pl ∉ src <$> rest) as Hd_nosrc.
  { intros (pl' & Heq & Hin)%list_elem_of_fmap.
    destruct (Hdiff pl' Hin) as (_ & H & _). by destruct H. }
  split; [|split; [|split]].
  - intros pl' [->|Hin]%elem_of_cons.
    + rewrite Hs. apply Hkeep; [|done].
      unfold fs2. destruct in_place; by rewrite lookup_insert_eq.
    + rewrite (Hcar _ Hin).
      destruct (Hdiff pl' Hin) as (H1 & H2 & _ & _ & _ & [v Hv]).
      rewrite Hv. by apply Hkeep2.
  - intros q v Hq Hqs. apply Hkeep.
    + apply Hkeep2; [done|]. intros Hin Heq. apply (Hqs Hin).
      rewrite fmap_cons, Heq. by left.
    + intros Hin Hqr. apply (Hqs Hin). rewrite fmap_cons. by right.
  - intros q Hq Hqd Hqp. rewrite !fmap_cons in Hqd, Hqp.
    apply not_elem_of_cons in Hqd as [Hqd1 Hqd2], Hqp as [Hqp1 Hqp2].
    apply Hnone; [|done|done]. apply Hnone2; [done|done|].
    by rewrite Hd, parent_two in Hqp1.
  - intros Hin pl' [->|Hin']%elem_of_cons; [|by apply Hgone].
    apply Hnone.
    + unfold fs2. rewrite Hin. rewrite lookup_insert_ne by done.
      apply lookup_delete_eq.
    + intros (pl' & Heq & Hin')%list_elem_of_fmap.
      destruct (Hdiff pl' Hin') as (_ & _ & _ & Hf & _). congruence.
    + intros (pl' & Heq & Hin')%list_elem_of_fmap.
      destruct (Hdiff pl' Hin') as (_ & _ & _ & _ & Hp & _). by destruct Hp.
Qed.

(** A plan that [plan_actions] has returned is ready on the disk it was
    built on. *)
Lemma plan_ready (in_root out_root : Path) (rules : Rules) (rename : bool)
    (fs : FS) (plans : list MovePlan) :
  Forall plain_name (fst <$> rules_folders rules) ->
  plain_name (rules_unknown rules) ->
  plain_targets rename in_root fs ->
  set_Forall (fun b => is_file_on fs (out_root ++ [b]) = false)
    (organized_top_folders rules) ->
  (plan_actions in_root out_root rules rename fs).2 = inr plans ->
  NoDup (src <$> plans) ∧ Forall (ready out_root fs) plans.
Proof.
  intros Hcat Hunk Hplain Hfolders. rewrite plan_actions_spec. simpl.
  intros Hrun. apply resolve_all_inr in Hrun as [Hsrc Hdst].
  split; [rewrite Hsrc; apply NoDup_filter, rglob_on_NoDup|].
  apply Forall_forall. intros pl Hpl.
  rewrite Forall_forall in Hdst. specialize (Hdst pl Hpl). simpl in Hdst.
  destruct (survives_file rules in_root fs (src pl)) as (Hpre & [data Hs] & _).
  { rewrite <- Hsrc. by apply list_elem_of_fmap_2. }
  destruct (plan_destination_shape out_root rules rename fs fs (src pl) (dst pl))
    as (b & n & Hd & Hb); [done|done| |done|].
  { by apply (Hplain (src pl) (File data)). }
  split; [by exists b, n|]. split.
  { intros Heq. rewrite Heq in Hpre. by apply strict_prefix_nil in Hpre. }
  split; [by exists data|]. split.
  - apply unique_path_free in Hdst. unfold exists_on in Hdst.
    apply bool_decide_eq_false in Hdst.
    rewrite stat_lookup in Hdst by (rewrite Hd; by destruct out_root).
    by apply eq_None_not_Some.
  - rewrite Hd, parent_two. by apply Hfolders.
Qed.

(** A plan without collisions is carried out without loss.  Let the
    category and target names be plain, the output root a directory, and no
    category folder of the output root a regular file.  If the
    destinations of the plan built on [fs] are pairwise distinct, then
    [apply] on [fs] runs to its end; every destination holds the text of
    its source; in place every source is gone; every other entry of [fs]
    is untouched (when copying, the sources too); and nothing has appeared
    but the destinations and their folders. *)
Theorem apply_carries_out_plan (in_root out_root : Path) (rules : Rules)
    (rename in_place : bool) (fs : FS) (plans : list MovePlan) :
  Forall plain_name (fst <$> rules_folders rules) ->
  plain_name (rules_unknown rules) ->
  plain_targets rename in_root fs ->
  is_dir_on fs out_root = true ->
  set_Forall (fun b => is_file_on fs (out_root ++ [b]) = false)
    (organized_top_folders rules) ->
  (plan_actions in_root out_root rules rename fs).2 = inr plans ->
  NoDup (dst <$> plans) ->
  ∃ fs', apply plans in_place false fs = (fs', inr tt)
    ∧ (∀ pl, pl ∈ plans ->
         ∃ data, fs !! src pl = Some (File data)
                 ∧ fs' !! dst pl = Some (File data))
    ∧ (in_place = true -> ∀ pl, pl ∈ plans -> fs' !! src pl = None)
    ∧ (∀ q n, fs !! q = Some n ->
              (in_place = true -> q ∉ src <$> plans) -> fs' !! q = Some n)
    ∧ (∀ q, fs !! q = None -> q ∉ dst <$> plans ->
            q ∉ (fun pl => Pth.parent (dst pl)) <$> plans -> fs' !! q = None).
Proof.
  intros Hcat Hunk Hplain Hroot Hfolders Hplan Hnd.
  destruct (plan_ready _ _ _ _ _ _ Hcat Hunk Hplain Hfolders Hplan)
    as [Hns Hready].
  destruct (apply_loop_carries in_place out_root plans fs Hroot Hnd Hns Hready)
    as (fs' & Erun & Hcar & Hkeep & Hnone & Hgone).
  exists fs'. split; [done|]. split; [|by split].
  intros pl Hpl. rewrite Forall_forall in Hready.
  destruct (Hready pl Hpl) as (_ & _ & [data Hs] & _).
  exists data. split; [done|]. by rewrite (Hcar pl Hpl).
Qed.

(** The plan of the scenario of section 8, applied in place. *)
Lemma scenario_plan_carried_out :
  let plans :=
    [ {| src := ["inbox"; "notes.txt"]; dst := ["inbox"; "Docs"; "notes.txt"] |};
      {| src := ["inbox"; "a.jpg"]; dst := ["inbox"; "Images"; "a.jpg"] |} ] in
  ∃ fs', apply plans true false Scenario.disk = (fs', inr tt)
    ∧ (∀ pl, pl ∈ plans ->
         ∃ data, Scenario.disk !! src pl = Some (File data)
                 ∧ fs' !! dst pl = Some (File data))
    ∧ (true = true -> ∀ pl, pl ∈ plans -> fs' !! src pl = None)
    ∧ (∀ q n, Scenario.disk !! q = Some n ->
              (true = true -> q ∉ src <$> plans) -> fs' !! q = Some n)
    ∧ (∀ q, Scenario.disk !! q = None -> q ∉ dst <$> plans ->
            q ∉ (fun pl => Pth.parent (dst pl)) <$> plans -> fs' !! q = None).
Proof.
  intros plans.
  apply (apply_carries_out_plan Scenario.inbox Scenario.inbox Scenario.rules
           false true Scenario.disk plans).
  - by_evaluation.
  - by_evaluation.
  - by_evaluation.
  - reflexivity.
  - by_evaluation.
  - vm_compute. reflexivity.
  - by_evaluation.
Defined.

(** ** Making directories *)

Lemma grown_refl (p : Path) (fs : FS) : grown_towards p fs fs.
Proof. intros q. by left. Qed.

Lemma grown_trans (p p' : Path) (fs1 fs2 fs3 : FS) :
  p `prefix_of` p' ->
  grown_towards p fs1 fs2 -> grown_towards p' fs2 fs3 ->
  grown_towards p' fs1 fs3.
Proof.
  intros Hpp H12 H23 q.
  destruct (H23 q) as [E23 | (N2 & D3 & P3)], (H12 q) as [E12 | (N1 & D2 & P2)].
  - left. congruence.
  - right. split; [done|]. split; [congruence|]. by etrans.
  - right. split; [congruence|]. done.
  - congruence.
Qed.

Lemma grown_insert (p : Path) (fs : FS) :
  fs !! p = None -> grown_towards p fs (<[p := Dir]> fs).
Proof.
  intros Hp q. destruct (decide (q = p)) as [->|Hne].
  - right. by rewrite lookup_insert_eq.
  - left. by rewrite lookup_insert_ne.
Qed.

Lemma os_mkdir_grown (p : Path) (fs fs' : FS) r :
  os_mkdir p fs = (fs', r) -> grown_towards p fs fs'.
Proof.
  unfold os_mkdir. intros H. destruct (exists_on fs p) eqn:Ee.
  { injection H as <- _. apply grown_refl. }
  assert (fs !! p = None) as Hp.
  { unfold exists_on in Ee. apply bool_decide_eq_false in Ee.
    destruct p; [destruct Ee; by eexists|]. by apply eq_None_not_Some. }
  destruct (stat fs (Pth.parent p)) as [[?|]|]; injection H as <- _;
    auto using grown_refl, grown_insert.
Qed.

Lemma mkdir_exist_ok_grown (p : Path) (fs fs' : FS) r :
  mkdir_exist_ok p fs = (fs', r) -> grown_towards p fs fs'.
Proof.
  unfold mkdir_exist_ok. intros H.
  destruct (os_mkdir p fs) as [fs1 [e|u]] eqn:E.
  - repeat case_match; injection H as <- _; apply grown_refl.
  - injection H as <- _. by apply os_mkdir_grown in E.
Qed.

Lemma prefix_parent (p : Path) : Pth.parent p `prefix_of` p.
Proof.
  destruct (decide (p = [])) as [->|Hp]; [done|].
  rewrite <- (parent_name p Hp) at 2. by apply prefix_app_r.
Qed.

Lemma mkdir_parents_rev_grown (rp : list string) (fs fs' : FS) r :
  mkdir_parents_rev rp fs = (fs', r) -> grown_towards (reverse rp) fs fs'.
Proof.
  revert fs fs' r. induction rp as [|c rparent IH]; intros fs fs' r H.
  - injection H as <- _. apply grown_refl.
  - cbn [mkdir_parents_rev] in H.
    assert (reverse rparent `prefix_of` reverse (c :: rparent)) as Hpre.
    { rewrite reverse_cons. by apply prefix_app_r. }
    destruct (os_mkdir (reverse (c :: rparent)) fs) as [fs1 [e|u]] eqn:E.
    + destruct e;
        try (repeat case_match; injection H as <- _; apply grown_refl).
      rewrite run_bind in H.
      destruct (mkdir_parents_rev rparent fs) as [fs2 [e2|u2]] eqn:E2.
      * injection H as <- _. apply IH in E2.
        eapply grown_trans; [exact Hpre|exact E2|apply grown_refl].
      * apply mkdir_exist_ok_grown in H. apply IH in E2.
        by eapply grown_trans.
    + injection H as <- _. by apply os_mkdir_grown in E.
Qed.

Lemma mkdir_parents_grown (p : Path) (fs fs' : FS) r :
  mkdir_parents p fs = (fs', r) -> grown_towards p fs fs'.
Proof.
  intros H. apply mkdir_parents_rev_grown in H.
  by rewrite reverse_involutive in H.
Qed.

Lemma grown_keeps (p : Path) (fs fs' : FS) (q : Path) (n : node) :
  grown_towards p fs fs' -> fs !! q = Some n -> fs' !! q = Some n.
Proof. intros H Hq. destruct (H q) as [E | (N & _)]; congruence. Qed.

Lemma os_mkdir_is_dir (p : Path) (fs fs' : FS) :
  os_mkdir p fs = (fs', inr tt) -> is_dir_on fs' p = true.
Proof.
  unfold os_mkdir. intros H. destruct (exists_on fs p); [discriminate H|].
  destruct (stat fs (Pth.parent p)) as [[?|]|]; try discriminate H.
  injection H as <-. apply is_dir_on_lookup, lookup_insert_eq.
Qed.

Lemma mkdir_exist_ok_is_dir (p : Path) (fs fs' : FS) :
  mkdir_exist_ok p fs = (fs', inr tt) -> is_dir_on fs' p = true.
Proof.
  unfold mkdir_exist_ok. intros H.
  destruct (os_mkdir p fs) as [fs1 [e|[]]] eqn:E.
  - destruct e; try discriminate H;
      destruct (is_dir_on fs p) eqn:Ed; try discriminate H;
      by injection H as <-.
  - injection H as <-. by apply os_mkdir_is_dir in E.
Qed.

Lemma mkdir_parents_rev_is_dir (rp : list string) (fs fs' : FS) :
  mkdir_parents_rev rp fs = (fs', inr tt) -> is_dir_on fs' (reverse rp) = true.
Proof.
  revert fs fs'. destruct rp as [|c rparent]; intros fs fs' H; [done|].
  cbn [mkdir_parents_rev] in H.
  destruct (os_mkdir (reverse (c :: rparent)) fs) as [fs1 [e|[]]] eqn:E.
  - destruct e;
      try (destruct (is_dir_on fs (reverse (c :: rparent))) eqn:Ed;
           [by injection H as <- | discriminate H]).
    rewrite run_bind in H.
    destruct (mkdir_parents_rev rparent fs) as [fs2 [e2|[]]];
      [discriminate H|].
    by apply mkdir_exist_ok_is_dir in H.
  - injection H as <-. by apply os_mkdir_is_dir in E.
Qed.

Lemma mkdir_parents_is_dir (p : Path) (fs fs' : FS) :
  mkdir_parents p fs = (fs', inr tt) -> is_dir_on fs' p = true.
Proof.
  intros H. apply mkdir_parents_rev_is_dir in H.
  by rewrite reverse_involutive in H.
Qed.

Lemma os_mkdir_fails (p : Path) (fs fs' : FS) (e : exn) :
  os_mkdir p fs = (fs', inl e) -> fs' = fs.
Proof.
  unfold os_mkdir. intros H. repeat case_match; try discriminate H;
    by injection H as <-.
Qed.

(** A creation that fails has created nothing. *)
Lemma mkdir_parents_rev_fails (rp : list string) (fs fs' : FS) (e : exn) :
  mkdir_parents_rev rp fs = (fs', inl e) -> fs' = fs.
Proof.
  revert fs fs' e. induction rp as [|c rparent IH]; intros fs fs' e H;
    [discriminate H|].
  cbn [mkdir_parents_rev] in H.
  destruct (os_mkdir (reverse (c :: rparent)) fs) as [fs1 [e1|[]]] eqn:E;
    [|discriminate H].
  destruct e1;
    try (destruct (is_dir_on fs (reverse (c :: rparent)));
         [discriminate H | by injection H as <-]).
  rewrite run_bind in H.
  destruct (mkdir_parents_rev rparent fs) as [fs2 [e2|[]]] eqn:E2.
  { injection H as <- _. by apply IH in E2. }
  exfalso.
  pose proof (mkdir_parents_rev_grown _ _ _ _ E2) as Hg.
  pose proof (mkdir_parents_rev_is_dir _ _ _ E2) as Hd.
  unfold os_mkdir in E. rewrite reverse_cons in *.
  destruct (exists_on fs (reverse rparent ++ [c])) eqn:Ee; [discriminate E|].
  assert (reverse rparent ++ [c] ≠ []) as Hne by (by destruct (reverse rparent)).
  assert (exists_on fs2 (reverse rparent ++ [c]) = false) as Ee2.
  { unfold exists_on in *. rewrite stat_lookup in * by done.
    destruct (Hg (reverse rparent ++ [c])) as [-> | (_ & _ & Hpre)]; [done|].
    apply prefix_length in Hpre. rewrite length_app in Hpre. simpl in Hpre. lia. }
  unfold mkdir_exist_ok, os_mkdir in H. rewrite Ee2, parent_snoc in H.
  apply bool_decide_eq_true in Hd. rewrite Hd in H. discriminate H.
Qed.

Lemma mkdir_parents_fails (p : Path) (fs fs' : FS) (e : exn) :
  mkdir_parents p fs = (fs', inl e) -> fs' = fs.
Proof. apply mkdir_parents_rev_fails. Qed.

(** ** The log file and the output-folder check *)

Lemma unlines_join (lines : list string) :
  Str.join_lines lines +:+ match lines with [] => "" | _ => String "010" "" end
  = unlines lines.
Proof.
  induction lines as [|a [|b l] IH]; [done|done|].
  change (Str.join_lines (a :: b :: l))
    with (a +:+ String "010" (Str.join_lines (b :: l))).
  rewrite append_assoc, append_cons. cbn [unlines] in *. by rewrite IH.
Qed.

(** What [write_log] leaves on disk.  On success the log file holds one
    line "src -> dst" for each move of the plan, in the order of the plan,
    each line followed by a newline, and the folder of the log file is a
    directory.  Whatever the end, no other path has changed, new
    directories on the way to the log file apart.  The call succeeds
    whenever that folder is there and the log path is no directory. *)
Theorem write_log_spec (plans : list MovePlan) (log_path : Path)
    (fs fs' : FS) (r : exn + unit) :
  write_log plans log_path fs = (fs', r) ->
  (∀ q, q ≠ log_path -> fs' !! q = fs !! q
        ∨ (fs !! q = None ∧ fs' !! q = Some Dir
           ∧ q `prefix_of` Pth.parent log_path))
  ∧ (r = inr tt ->
     fs' !! log_path = Some (File (unlines (log_line <$> plans)))
     ∧ is_dir_on fs' (Pth.parent log_path) = true)
  ∧ (r ≠ inr tt -> grown_towards (Pth.parent log_path) fs fs')
  ∧ (is_dir_on fs (Pth.parent log_path) = true ->
     is_dir_on fs log_path = false -> r = inr tt).
Proof.
  unfold write_log. rewrite run_bind. intros H.
  destruct (mkdir_parents (Pth.parent log_path) fs) as [fs1 [e|[]]] eqn:E1.
  { injection H as <- <-. pose proof (mkdir_parents_grown _ _ _ _ E1) as Hg.
    split; [intros q _; apply Hg|]. split; [done|]. split; [done|].
    intros Hd _. rewrite (mkdir_parents_existing _ _ Hd) in E1. done. }
  pose proof (mkdir_parents_grown _ _ _ _ E1) as Hg.
  pose proof (mkdir_parents_is_dir _ _ _ E1) as Hd1.
  rewrite unlines_join in H. unfold write_file in H.
  assert (stat fs1 (Pth.parent log_path) = Some Dir) as Hp
    by (by apply bool_decide_eq_true in Hd1).
  rewrite Hp in H.
  destruct (stat fs1 log_path) as [[old|]|] eqn:Es.
  - injection H as <- <-. split; [|split; [|split]]; [| |done|done].
    + intros q Hq. rewrite lookup_insert_ne by done. apply Hg.
    + intros _. split; [apply lookup_insert_eq|].
      rewrite <- Hd1. apply is_dir_on_agree. intros Hne.
      apply lookup_insert_ne. intros Heq. rewrite <- Heq in Hp.
      rewrite stat_lookup in Hp by (rewrite <- Heq in Hne; done).
      destruct log_path; [done|]. rewrite stat_lookup in Es by done. congruence.
  - injection H as <- <-. split; [intros q _; apply Hg|].
    split; [done|]. split; [done|]. intros Hd Hl.
    rewrite (mkdir_parents_existing _ _ Hd) in E1. injection E1 as <-.
    unfold is_dir_on in Hl. rewrite Es in Hl.
    by rewrite bool_decide_eq_true_2 in Hl.
  - injection H as <- <-. split; [|split; [|split]]; [| |done|done].
    + intros q Hq. rewrite lookup_insert_ne by done. apply Hg.
    + intros _. split; [apply lookup_insert_eq|].
      rewrite <- Hd1. apply is_dir_on_agree. intros Hne.
      apply lookup_insert_ne. intros Heq. rewrite <- Heq in Hp.
      rewrite Es in Hp. done.
Qed.

(** The log of the plan of the scenario of section 8. *)
Lemma write_log_scenario :
  let plans :=
    [ {| src := ["inbox"; "notes.txt"]; dst := ["inbox"; "Docs"; "notes.txt"] |};
      {| src := ["inbox"; "a.jpg"]; dst := ["inbox"; "Images"; "a.jpg"] |} ] in
  let run := write_log plans ["home"; "logs"; "log.txt"] Scenario.disk in
  run.1 !! ["home"; "logs"; "log.txt"]
  = Some (File ("/inbox/notes.txt -> /inbox/Docs/notes.txt" +:+ String "010"
                ("/inbox/a.jpg -> /inbox/Images/a.jpg" +:+ String "010" ""))).
Proof.
  intros plans run.
  refine (proj1 (proj1 (proj2 (write_log_spec plans ["home"; "logs"; "log.txt"]
            Scenario.disk run.1 run.2 _)) _)).
  - apply surjective_pairing.
  - vm_compute. reflexivity.
Defined.

Lemma iterdir_success (p : Path) (fs fs' : FS) (entries : list Path) :
  iterdir p fs = (fs', inr entries) -> fs' = fs ∧ entries = iterdir_on fs p.
Proof.
  unfold iterdir. destruct (stat fs p) as [[?|]|]; intros H;
    try discriminate H. by injection H as <- <-.
Qed.

Lemma iterdir_read_only (p : Path) : read_only (iterdir p).
Proof. intros fs. unfold iterdir. by destruct (stat fs p) as [[?|]|]. Qed.

(** The output-folder check.  In place it does nothing.  Otherwise it makes
    the output root with its missing ancestors; when it returns, the
    output root is a directory without entries; an output root with entries
    is refused by [SystemExit]; an output root that was a directory is
    left as it was; and every failure other than that refusal leaves the
    disk untouched.  In all cases the disk has changed by new directories
    on the way to the output root at most. *)
Theorem ensure_clean_output_folder_spec (out_root : Path) (in_place : bool)
    (fs fs' : FS) (r : exn + unit) :
  ensure_clean_output_folder out_root in_place fs = (fs', r) ->
  grown_towards out_root fs fs'
  ∧ (in_place = true -> fs' = fs ∧ r = inr tt)
  ∧ (in_place = false -> r = inr tt ->
     is_dir_on fs' out_root = true ∧ iterdir_on fs' out_root = [])
  ∧ (in_place = false -> is_dir_on fs' out_root = true ->
     iterdir_on fs' out_root ≠ [] -> ∃ msg, r = inl (SystemExit msg))
  ∧ (is_dir_on fs out_root = true -> fs' = fs)
  ∧ (∀ e, r = inl e -> (∀ msg, e ≠ SystemExit msg) -> fs' = fs).
Proof.
  unfold ensure_clean_output_folder. destruct in_place.
  { intros [= <- <-]. split; [apply grown_refl|]. by repeat split. }
  rewrite run_bind. intros H.
  destruct (mkdir_parents out_root fs) as [fs1 [e|[]]] eqn:E1.
  { injection H as <- <-. apply mkdir_parents_fails in E1 as Heq. subst fs1.
    split; [apply grown_refl|]. split; [done|]. split; [done|].
    split; [|by split].
    intros _ Hd _. by rewrite (mkdir_parents_existing _ _ Hd) in E1. }
  pose proof (mkdir_parents_grown _ _ _ _ E1) as Hg.
  pose proof (mkdir_parents_is_dir _ _ _ E1) as Hd1.
  assert (is_dir_on fs out_root = true -> fs1 = fs) as Hsame.
  { intros Hd. rewrite (mkdir_parents_existing _ _ Hd) in E1. congruence. }
  rewrite run_bind in H.
  pose proof (iterdir_read_only out_root fs1) as Hro.
  destruct (iterdir out_root fs1) as [fs2 [e|entries]] eqn:E2;
    simpl in Hro; subst fs2.
  { unfold iterdir in E2. apply bool_decide_eq_true in Hd1.
    rewrite Hd1 in E2. discriminate E2. }
  apply iterdir_success in E2 as [_ ->].
  destruct (bool_decide (iterdir_on fs1 out_root ≠ [])) eqn:Eb;
    injection H as <- <-.
  - apply bool_decide_eq_true in Eb. split; [done|]. split; [done|].
    split; [done|]. split; [intros; by eexists|]. split; [done|].
    intros e [= <-] He. by destruct (He _ eq_refl).
  - apply bool_decide_eq_false in Eb. split; [done|]. split; [done|].
    split; [intros _ _; split; [done|]; by apply dec_stable|].
    split; [intros _ _ Hne; by destruct Eb|]. by split.
Qed.

(** The fresh output root /out/sorted. *)
Lemma ensure_clean_output_folder_scenario :
  let run := ensure_clean_output_folder ["out"; "sorted"] false Scenario.disk in
  is_dir_on run.1 ["out"; "sorted"] = true
  ∧ iterdir_on run.1 ["out"; "sorted"] = [].
Proof.
  intros run.
  refine (proj1 (proj2 (proj2 (ensure_clean_output_folder_spec
            ["out"; "sorted"] false Scenario.disk run.1 run.2 _))) _ _).
  - apply surjective_pairing.
  - reflexivity.
  - vm_compute. reflexivity.
Defined.

(** ** The whole command: dry runs and copies *)

(** The steps of a run, whatever its end: each state is the one before it,
    or what the next step of [main] has made of it. *)
Lemma main_trace (json_load : string -> option Rules) (cwd : Path)
    (timestamp : string) (args : Args) (fs fs' : FS) (r : exn + list string) :
  main json_load cwd timestamp args fs = (fs', r) ->
  let out_root := default (root args) (output args) in
  let in_place := bool_decide (out_root = root args) in
  fs' = fs
  ∨ ∃ rules fs0 r0,
      load_rules json_load (rules_file args) fs = (fs, inr rules)
      ∧ ensure_clean_output_folder out_root in_place fs = (fs0, r0)
      ∧ (fs' = fs0
         ∨ ∃ fs1 r1,
             mkdir_parents (cwd // "logs") fs0 = (fs1, r1)
             ∧ (fs' = fs1
                ∨ ∃ plans fs2 r2,
                    plan_actions (root args) out_root rules (rename args) fs1
                    = (fs1, inr plans)
                    ∧ write_log plans
                        (log_path_of cwd timestamp (root args) out_root) fs1
                      = (fs2, r2)
                    ∧ (fs' = fs2
                       ∨ ∃ r3, apply plans in_place (dry_run args) fs2
                               = (fs', r3)))).
Proof.
  intros Hrun out_root in_place. unfold main, path_exists, is_dir in Hrun.
  rewrite !run_bind_reads in Hrun.
  destruct (negb (exists_on fs (root args)) || negb (is_dir_on fs (root args)));
    [injection Hrun as <- _; by left|].
  rewrite run_bind_reads in Hrun.
  destruct (negb (exists_on fs (rules_file args)));
    [injection Hrun as <- _; by left|].
  rewrite run_bind in Hrun.
  pose proof (load_rules_read_only json_load (rules_file args) fs) as Hro.
  destruct (load_rules json_load (rules_file args) fs) as [fs0' [e|rules]]
    eqn:El; simpl in Hro; subst fs0'; [injection Hrun as <- _; by left|].
  cbv beta zeta in Hrun. fold out_root in Hrun. fold in_place in Hrun.
  right. exists rules.
  run_bind_in Hrun.
  destruct (ensure_clean_output_folder out_root in_place fs)
    as [fs0 [e|[]]] eqn:E0.
  { injection Hrun as <- _. exists fs0, (inl e). auto. }
  exists fs0, (inr ()). split; [done|]. split; [done|]. right.
  run_bind_in Hrun.
  destruct (mkdir_parents (cwd // "logs") fs0) as [fs1 [e|[]]] eqn:E1.
  { injection Hrun as <- _. exists fs1, (inl e). auto. }
  exists fs1, (inr ()). split; [done|].
  run_bind_in Hrun.
  pose proof (plan_actions_read_only (root args) out_root rules
                (rename args) fs1) as Hro.
  destruct (plan_actions (root args) out_root rules (rename args) fs1)
    as [fs1' [e|plans]] eqn:E2; simpl in Hro; subst fs1'.
  { injection Hrun as <- _. by left. }
  right. exists plans. run_bind_in Hrun.
  destruct (write_log plans _ fs1) as [fs2 [e|[]]] eqn:E3.
  { injection Hrun as <- _. exists fs2, (inl e). auto. }
  exists fs2, (inr ()). split; [done|]. split; [done|]. right.
  run_bind_in Hrun.
  destruct (apply plans in_place (dry_run args) fs2) as [fs3 [e|[]]] eqn:E4.
  { injection Hrun as <- _. by exists (inl e). }
  injection Hrun as <- _. by exists (inr ()).
Qed.

Lemma ensure_clean_grown (out_root : Path) (in_place : bool) (fs fs' : FS)
    (r : exn + unit) :
  ensure_clean_output_folder out_root in_place fs = (fs', r) ->
  grown_towards out_root fs fs'.
Proof.
  unfold ensure_clean_output_folder. destruct in_place.
  { intros [= <- _]. apply grown_refl. }
  rewrite run_bind. intros H.
  destruct (mkdir_parents out_root fs) as [fs1 [e|[]]] eqn:E1.
  { injection H as <- _. by apply mkdir_parents_grown in E1. }
  apply mkdir_parents_grown in E1. rewrite run_bind in H.
  pose proof (iterdir_read_only out_root fs1) as Hro.
  destruct (iterdir out_root fs1) as [fs2 [e|entries]];
    simpl in Hro; subst fs2; [by injection H as <- _|].
  by destruct (bool_decide _); injection H as <- _.
Qed.

Lemma write_log_frame (plans : list MovePlan) (log_path : Path)
    (fs fs' : FS) (r : exn + unit) :
  write_log plans log_path fs = (fs', r) ->
  ∀ q, q ≠ log_path ->
       fs' !! q = fs !! q
       ∨ (fs !! q = None ∧ fs' !! q = Some Dir
          ∧ q `prefix_of` Pth.parent log_path).
Proof.
  unfold write_log. rewrite run_bind. intros H q Hq.
  destruct (mkdir_parents (Pth.parent log_path) fs) as [fs1 [e|[]]] eqn:E1.
  { injection H as <- _. by apply mkdir_parents_grown in E1. }
  apply mkdir_parents_grown in E1.
  assert (fs' !! q = fs1 !! q) as ->; [|apply E1].
  unfold write_file in H.
  repeat case_match; injection H as <- _; try done;
    by rewrite lookup_insert_ne.
Qed.

(** A dry run moves and copies nothing.  Whatever the end of the run, every
    path but the log file holds what it held before, or is a new directory
    on the way to the output root, to the logs folder or to the log file. *)
Theorem dry_run_moves_nothing (json_load : string -> option Rules)
    (cwd : Path) (timestamp : string) (args : Args) (fs fs' : FS)
    (r : exn + list string) :
  dry_run args = true ->
  main json_load cwd timestamp args fs = (fs', r) ->
  let out_root := default (root args) (output args) in
  let log_path := log_path_of cwd timestamp (root args) out_root in
  ∀ q, q ≠ log_path ->
       fs' !! q = fs !! q
       ∨ (fs !! q = None ∧ fs' !! q = Some Dir
          ∧ (q `prefix_of` out_root ∨ q `prefix_of` cwd // "logs"
             ∨ q `prefix_of` Pth.parent log_path)).
Proof.
  intros Hdry Hrun out_root log_path q Hq.
  apply main_trace in Hrun. cbv zeta in Hrun. fold out_root in Hrun.
  fold log_path in Hrun. rewrite Hdry in Hrun.
  destruct Hrun as [-> | (rules & fs0 & r0 & _ & E0 & Hrun)]; [by left|].
  apply ensure_clean_grown in E0.
  assert (∃ fs1, grown_towards (cwd // "logs") fs0 fs1
                 ∧ (fs' !! q = fs1 !! q
                    ∨ (fs1 !! q = None ∧ fs' !! q = Some Dir
                       ∧ q `prefix_of` Pth.parent log_path)))
    as (fs1 & E1 & E2).
  { destruct Hrun as [-> | (fs1 & r1 & E1 & Hrun)].
    { exists fs0. split; [apply grown_refl | by left]. }
    apply mkdir_parents_grown in E1. exists fs1. split; [done|].
    destruct Hrun as [-> | (plans & fs2 & r2 & _ & E2 & Hrun)]; [by left|].
    assert (fs' = fs2) as ->.
    { destruct Hrun as [-> | [r3 E3]]; [done|]. by injection E3 as <-. }
    by apply (write_log_frame _ _ _ _ _ E2). }
  destruct (E0 q) as [H0 | (N0 & D0 & P0)], (E1 q) as [H1 | (N1 & D1 & P1)],
    E2 as [H2 | (N2 & D2 & P2)];
    first [ left; congruence
          | right; split; [congruence|]; split; [congruence|]; by auto
          | congruence ].
Qed.

(** A dry run of the scenario of section 8 from /home. *)
Lemma dry_run_scenario :
  let args := {| root := ["inbox"]; rules_file := ["rules.json"];
                 dry_run := true; rename := false; output := None |} in
  let fs := <[ ["rules.json"] := File "{}" ]> Scenario.disk in
  let run := main (fun _ => Some Scenario.rules) ["home"] "20240101_120000"
               args fs in
  run.2 = inr [ "Planned actions: 2";
                "Log: /home/logs/organize_log_inbox_to_inbox_20240101_120000.txt";
                "Mode: IN-PLACE move";
                "Dry-run only. Re-run without --dry-run to apply." ]
  ∧ ∀ q, q ≠ ["home"; "logs";
              "organize_log_inbox_to_inbox_20240101_120000.txt"] ->
         run.1 !! q = fs !! q
         ∨ (fs !! q = None ∧ run.1 !! q = Some Dir
            ∧ (q `prefix_of` ["inbox"] ∨ q `prefix_of` ["home"; "logs"]
               ∨ q `prefix_of` ["home"; "logs"])).
Proof.
  intros args fs run. split; [vm_compute; reflexivity|].
  apply (dry_run_moves_nothing (fun _ => Some Scenario.rules) ["home"]
           "20240101_120000" args fs run.1 run.2).
  - reflexivity.
  - apply surjective_pairing.
Defined.

Lemma grown_files (p : Path) (fs fs' : FS) :
  grown_towards p fs fs' -> files_within fs' fs.
Proof.
  intros H q data Hq. destruct (H q) as [E | (_ & D & _)]; congruence.
Qed.

Lemma shutil_copy2_keeps (s d : Path) (fs fs' : FS) (r : exn + unit) :
  shutil_copy2 s d fs = (fs', r) ->
  ∀ q n, fs !! q = Some n -> ¬ d `prefix_of` q -> fs' !! q = Some n.
Proof.
  unfold shutil_copy2. intros H q n Hq Hd.
  assert (q ≠ real_dst fs s d) as Hne.
  { intros ->. apply Hd, real_dst_prefix. }
  destruct (bool_decide (s = real_dst fs s d) && exists_on fs s);
    [by injection H as <- _|].
  rewrite run_bind in H. unfold read_file in H.
  destruct (stat fs s) as [[data|]|]; try (by injection H as <- _).
  unfold write_file in H.
  repeat case_match; injection H as <- _; try done;
    by rewrite lookup_insert_ne.
Qed.

Lemma apply_loop_copy_keeps (plans : list MovePlan) (fs fs' : FS)
    (r : exn + unit) :
  apply_loop false plans fs = (fs', r) ->
  ∀ q n, fs !! q = Some n ->
         (∀ pl, pl ∈ plans -> ¬ dst pl `prefix_of` q) -> fs' !! q = Some n.
Proof.
  revert fs. induction plans as [|pl rest IH]; intros fs H q n Hq Hpl.
  { by injection H as <- _. }
  cbn [apply_loop] in H. rewrite run_bind in H.
  destruct (mkdir_parents (Pth.parent (dst pl)) fs) as [fs1 [e|[]]] eqn:E1.
  { injection H as <- _. apply mkdir_parents_grown in E1.
    by apply (grown_keeps _ _ _ _ _ E1). }
  apply mkdir_parents_grown in E1.
  pose proof (grown_keeps _ _ _ _ _ E1 Hq) as Hq1.
  rewrite run_bind in H.
  destruct (shutil_copy2 (src pl) (dst pl) fs1) as [fs2 [e|[]]] eqn:E2.
  { injection H as <- _.
    apply (shutil_copy2_keeps _ _ _ _ _ E2 q n Hq1), Hpl. by left. }
  apply (IH fs2 H); [|intros pl' Hin; apply Hpl; by right].
  apply (shutil_copy2_keeps _ _ _ _ _ E2 q n Hq1), Hpl. by left.
Qed.

(** Copy mode leaves what is there.  With plain category and target names,
    a run with a separate output root, whatever its end, changes and
    removes no entry outside the output root, the log file apart. *)
Theorem copy_mode_keeps_entries (json_load : string -> option Rules)
    (cwd : Path) (timestamp : string) (args : Args) (rules : Rules)
    (out : Path) (fs fs' : FS) (r : exn + list string) :
  output args = Some out -> out ≠ root args ->
  (load_rules json_load (rules_file args) fs).2 = inr rules ->
  Forall plain_name (fst <$> rules_folders rules) ->
  plain_name (rules_unknown rules) ->
  plain_targets (rename args) (root args) fs ->
  main json_load cwd timestamp args fs = (fs', r) ->
  ∀ q n, fs !! q = Some n ->
         q ≠ log_path_of cwd timestamp (root args) out ->
         ¬ out `prefix_of` q ->
         fs' !! q = Some n.
Proof.
  intros Hout Hne Hload Hcat Hunk Hplain Hrun q n Hq Hlog Hq_out.
  apply main_trace in Hrun. cbv zeta in Hrun. rewrite Hout in Hrun.
  cbn [default from_option id] in Hrun.
  rewrite (bool_decide_eq_false_2 _ Hne) in Hrun.
  destruct Hrun as [-> | (rules' & fs0 & r0 & El & E0 & Hrun)]; [done|].
  rewrite El in Hload. injection Hload as ->.
  apply ensure_clean_grown in E0.
  pose proof (grown_keeps _ _ _ _ _ E0 Hq) as Hq0.
  destruct Hrun as [-> | (fs1 & r1 & E1 & Hrun)]; [done|].
  apply mkdir_parents_grown in E1.
  pose proof (grown_keeps _ _ _ _ _ E1 Hq0) as Hq1.
  destruct Hrun as [-> | (plans & fs2 & r2 & E2 & E3 & Hrun)]; [done|].
  assert (fs2 !! q = Some n) as Hq2.
  { destruct (write_log_frame _ _ _ _ _ E3 q Hlog) as [-> | (N & _)];
      congruence. }
  destruct Hrun as [-> | [r3 E4]]; [done|].
  unfold apply in E4. destruct (dry_run args); [by injection E4 as <- _|].
  apply (apply_loop_copy_keeps _ _ _ _ E4 q n Hq2).
  intros pl Hpl Hpre. apply Hq_out.
  assert (∃ b nm, dst pl = out ++ [b; nm]) as (b & nm & Hd).
  { pose proof E2 as Hplan. rewrite plan_actions_spec in Hplan.
    injection Hplan as Hplan. apply resolve_all_inr in Hplan as [Hsrc Hdst].
    rewrite Forall_forall in Hdst. specialize (Hdst pl Hpl). simpl in Hdst.
    destruct (survives_file rules (root args) fs1 (src pl))
      as (Hpre1 & [data Hs] & _).
    { rewrite <- Hsrc. by apply list_elem_of_fmap_2. }
    destruct (plan_destination_shape out rules (rename args) fs1 fs1
                (src pl) (dst pl)) as (b & nm & Hd & _);
      [done|done| |done|by exists b, nm].
    apply (grown_files _ _ _ E1), (grown_files _ _ _ E0) in Hs.
    by apply (Hplain (src pl) (File data)). }
  etrans; [|exact Hpre]. rewrite Hd. by apply prefix_app_r.
Qed.

(** The scenario of section 8 copied to /out: a.jpg is still in place. *)
Lemma copy_mode_scenario :
  let fs := <[ ["rules.json"] := File "{}" ]> Scenario.disk in
  let run := main (fun _ => Some Scenario.rules) ["home"] "20240101_120000"
               Scenario.args_copy fs in
  run.2 = inr [ "Planned actions: 2";
                "Log: /home/logs/organize_log_inbox_to_out_20240101_120000.txt";
                "Mode: COPY to output folder (/out)" ]
  ∧ run.1 !! ["inbox"; "a.jpg"] = Some (File "a").
Proof.
  intros fs run. split; [vm_compute; reflexivity|].
  apply (copy_mode_keeps_entries (fun _ => Some Scenario.rules) ["home"]
           "20240101_120000" Scenario.args_copy Scenario.rules ["out"]
           fs run.1 run.2).
  - reflexivity.
  - discriminate.
  - reflexivity.
  - by_evaluation.
  - by_evaluation.
  - by_evaluation.
  - apply surjective_pairing.
  - reflexivity.
  - discriminate.
  - intros H. apply prefix_cons_inv_1 in H. discriminate H.
Defined.

(** ** The failures of the planner *)

Lemma unique_loop_inl (fs fs' : FS) (p : Path) (n : nat) (i : N) (e : exn) :
  wf_path p -> p ≠ [] ->
  unique_loop p (Pth.stem p) (Pth.suffix p) n i fs = (fs', inl e) ->
  e = RuntimeError ("Could not find unique name for " +:+ Pth.name p).
Proof.
  intros Hwf Hp. revert i. induction n as [|n IH]; intros i H.
  - by injection H as _ <-.
  - rewrite (unique_loop_step fs p Hwf Hp) in H.
    destruct (exists_on fs (candidate p i)); [by apply (IH _ H)|discriminate H].
Qed.

Lemma unique_path_inl (fs fs' : FS) (p : Path) (e : exn) :
  wf_path p -> p ≠ [] ->
  unique_path p fs = (fs', inl e) ->
  e = RuntimeError ("Could not find unique name for " +:+ Pth.name p)
  ∧ exists_on fs p = true
  ∧ ∀ j, (2 <= j < 10000)%N -> exists_on fs (candidate p j) = true.
Proof.
  intros Hwf Hp H. destruct (exists_on fs p) eqn:Ep.
  - rewrite (unique_path_present _ _ Ep) in H.
    split; [by apply unique_loop_inl in H|]. split; [done|].
    intros j Hj. apply (unique_loop_raises fs p Hwf Hp _ _ _ _ H).
    rewrite max_attempts_range. lia.
  - by rewrite (unique_path_absent _ _ Ep) in H.
Qed.

Lemma resolve_all_inl (fs : FS) (out_root : Path) (rules : Rules)
    (rename : bool) (items : list Path) (e : exn) :
  resolve_all fs out_root rules rename items = inl e ->
  ∃ item, item ∈ items
          ∧ (unique_path (desired_target out_root rules rename item) fs).2
            = inl e.
Proof.
  induction items as [|item rest IH]; [done|]. cbn [resolve_all].
  destruct (unique_path _ fs).2 as [e1|t] eqn:E1.
  - intros [= <-]. exists item. split; [by left|done].
  - destruct (resolve_all fs out_root rules rename rest) as [e2|plans];
      [|done].
    intros [= <-]. destruct (IH eq_refl) as (it & Hin & Hit).
    exists it. split; [by right|done].
Qed.

Lemma wf_path_target (out_root : Path) (b n : string) :
  wf_path out_root -> plain_name b -> plain_name n ->
  wf_path (out_root ++ [b; n]).
Proof.
  intros Hwf (Hb & _ & _ & Hbs) (Hn & _ & _ & Hns). unfold wf_path.
  apply Forall_app. split; [done|]. by repeat constructor.
Qed.

(** The planner's only failure.  With a well-formed output root and plain
    category and target names, [plan_actions] returns a plan, unless some
    file to be planned finds its target and all the siblings numbered 2 to
    9999 on disk: then it raises the resolution error for that file, and
    nothing else is ever raised. *)
Theorem plan_actions_outcome (in_root out_root : Path) (rules : Rules)
    (rename : bool) (fs : FS) :
  wf_path out_root ->
  Forall plain_name (fst <$> rules_folders rules) ->
  plain_name (rules_unknown rules) ->
  plain_targets rename in_root fs ->
  (∃ plans, plan_actions in_root out_root rules rename fs = (fs, inr plans))
  ∨ (∃ item,
       item ∈ filter (survives rules in_root fs) (rglob_on fs in_root)
       ∧ plan_actions in_root out_root rules rename fs
         = (fs, inl (RuntimeError ("Could not find unique name for "
                                   +:+ target_name rename item)))
       ∧ ∀ p, p = out_root ++ [extension_bucket (Pth.suffix item) rules;
                               target_name rename item] ->
              exists_on fs p = true
              ∧ ∀ j, (2 <= j < 10000)%N -> exists_on fs (candidate p j) = true).
Proof.
  intros Hwf Hcat Hunk Hplain. rewrite plan_actions_spec.
  destruct (resolve_all fs out_root rules rename _) as [e|plans] eqn:E;
    [right|left; by exists plans].
  apply resolve_all_inl in E as (item & Hin & Hit).
  destruct (survives_file _ _ _ _ Hin) as (Hpre & [data Hs] & _).
  pose proof (Hplain item (File data) Hs ltac:(done) Hpre) as Htn.
  pose proof (plain_bucket rules (Pth.suffix item) Hcat Hunk) as Hb.
  rewrite (desired_target_plain _ _ _ _ Hb Htn) in Hit.
  destruct (unique_path _ fs) as [fs1 r1] eqn:Eu. simpl in Hit. subst r1.
  apply unique_path_inl in Eu as (-> & Hp & Htaken);
    [|by apply wf_path_target|by destruct out_root].
  rewrite name_two. exists item. split; [done|]. split; [done|].
  by intros p ->.
Qed.

(** The scenario of section 8 with the output root /out. *)
Lemma plan_actions_outcome_scenario :
  (∃ plans, plan_actions Scenario.inbox ["out"] Scenario.rules false
              Scenario.disk = (Scenario.disk, inr plans))
  ∨ (∃ item,
       item ∈ filter (survives Scenario.rules Scenario.inbox Scenario.disk)
                (rglob_on Scenario.disk Scenario.inbox)
       ∧ plan_actions Scenario.inbox ["out"] Scenario.rules false Scenario.disk
         = (Scenario.disk,
            inl (RuntimeError ("Could not find unique name for "
                               +:+ target_name false item)))
       ∧ ∀ p, p = ["out"] ++ [extension_bucket (Pth.suffix item) Scenario.rules;
                              target_name false item] ->
              exists_on Scenario.disk p = true
              ∧ ∀ j, (2 <= j < 10000)%N ->
                     exists_on Scenario.disk (candidate p j) = true).
Proof.
  apply plan_actions_outcome; by_evaluation.
Defined.

(** ** The whole command: no write before the checks *)

(** Nothing is written before the checks have passed.  A run that has
    changed the disk in any way, whatever its end, has found the source root
    to be a directory and the rules file to exist, and has loaded the
    rules: a missing root, a missing, unreadable or malformed rules file
    never leaves an output folder, a logs folder or a log behind. *)
Theorem main_writes_after_checks (json_load : string -> option Rules)
    (cwd : Path) (timestamp : string) (args : Args) (fs fs' : FS)
    (r : exn + list string) :
  main json_load cwd timestamp args fs = (fs', r) ->
  fs' ≠ fs ->
  is_dir_on fs (root args) = true
  ∧ exists_on fs (rules_file args) = true
  ∧ ∃ text rules, (read_file (rules_file args) fs).2 = inr text
                  ∧ json_load text = Some rules.
Proof.
  intros Hrun Hne. unfold main, path_exists, is_dir in Hrun.
  rewrite !run_bind_reads in Hrun.
  destruct (exists_on fs (root args)) eqn:Ee;
    [|injection Hrun as <- _; by destruct Hne].
  destruct (is_dir_on fs (root args)) eqn:Ed;
    [|injection Hrun as <- _; by destruct Hne].
  cbn [negb orb] in Hrun. rewrite run_bind_reads in Hrun.
  destruct (exists_on fs (rules_file args)) eqn:Er;
    [|injection Hrun as <- _; by destruct Hne].
  cbn [negb] in Hrun. split; [done|]. split; [done|].
  rewrite run_bind in Hrun. unfold load_rules in Hrun at 1.
  rewrite run_bind in Hrun.
  pose proof (read_file_read_only (rules_file args) fs) as Hro.
  destruct (read_file (rules_file args) fs) as [fs0 [e|text]];
    simpl in Hro; subst fs0; [injection Hrun as <- _; by destruct Hne|].
  destruct (json_load text) as [rules|] eqn:Ej;
    [|injection Hrun as <- _; by destruct Hne].
  by exists text, rules.
Qed.

(** A dry run of the scenario of section 8 has made /home/logs. *)
Lemma main_writes_after_checks_scenario :
  let args := {| root := ["inbox"]; rules_file := ["rules.json"];
                 dry_run := true; rename := false; output := None |} in
  let fs := <[ ["rules.json"] := File "{}" ]> Scenario.disk in
  let run := main (fun _ => Some Scenario.rules) ["home"] "20240101_120000"
               args fs in
  run.1 !! ["home"; "logs"] = Some Dir
  ∧ fs !! ["home"; "logs"] = None
  ∧ is_dir_on fs ["inbox"] = true
  ∧ exists_on fs ["rules.json"] = true
  ∧ ∃ text rules, (read_file ["rules.json"] fs).2 = inr text
                  ∧ Some Scenario.rules = Some rules.
Proof.
  intros args fs run. split; [vm_compute; reflexivity|].
  split; [vm_compute; reflexivity|].
  apply (main_writes_after_checks (fun _ => Some Scenario.rules) ["home"]
           "20240101_120000" args fs run.1 run.2).
  - apply surjective_pairing.
  - intros H. apply (f_equal (fun m : FS => m !! ["home"; "logs"])) in H.
    vm_compute in H. discriminate H.
Defined.

(** ** The whole command: an output option naming the source root *)

(** An output option that names the source root itself.  [main] compares
    the two resolved paths to choose between moving and copying, and
    tests the option alone to word its mode line: the run does to the disk
    what the run without the option does (it moves the files), ends in the
    same way, and prints the same lines but for the mode line, which
    announces a copy. *)
Theorem output_equal_to_root_moves (json_load : string -> option Rules)
    (cwd : Path) (timestamp : string) (args : Args) (fs fs' : FS)
    (r : exn + list string) :
  output args = Some (root args) ->
  main json_load cwd timestamp args fs = (fs', r) ->
  ∃ r', main json_load cwd timestamp
          {| root := root args; rules_file := rules_file args;
             dry_run := dry_run args; rename := rename args;
             output := None |} fs = (fs', r')
        ∧ (∀ e, r = inl e -> r' = inl e)
        ∧ (∀ lines, r = inr lines ->
             ∃ count log rest,
               lines = count :: log
                       :: ("Mode: COPY to output folder ("
                           +:+ Pth.render (root args) +:+ ")") :: rest
               ∧ r' = inr (count :: log :: "Mode: IN-PLACE move" :: rest)).
Proof.
  intros Hout Hrun. unfold main, path_exists, is_dir in *.
  cbn [root rules_file dry_run rename output] in *.
  rewrite !run_bind_reads in *.
  destruct (negb (exists_on fs (root args)) || negb (is_dir_on fs (root args))).
  { injection Hrun as <- <-. eexists. split; [done|]. by split. }
  rewrite run_bind_reads in *.
  destruct (negb (exists_on fs (rules_file args))).
  { injection Hrun as <- <-. eexists. split; [done|]. by split. }
  rewrite run_bind in *.
  destruct (load_rules json_load (rules_file args) fs) as [fs0 [e|rules]].
  { injection Hrun as <- <-. eexists. split; [done|]. by split. }
  cbv beta zeta in *. rewrite Hout in Hrun.
  cbn [default from_option id] in *.
  run_bind_in Hrun. rewrite run_bind.
  destruct (ensure_clean_output_folder (root args)
              (bool_decide (root args = root args)) fs0) as [fs1 [e|[]]].
  { injection Hrun as <- <-. eexists. split; [done|]. by split. }
  run_bind_in Hrun. rewrite run_bind.
  destruct (mkdir_parents (cwd // "logs") fs1) as [fs2 [e|[]]].
  { injection Hrun as <- <-. eexists. split; [done|]. by split. }
  run_bind_in Hrun. rewrite run_bind.
  destruct (plan_actions (root args) (root args) rules (rename args) fs2)
    as [fs3 [e|plans]].
  { injection Hrun as <- <-. eexists. split; [done|]. by split. }
  run_bind_in Hrun. rewrite run_bind.
  destruct (write_log plans _ fs3) as [fs4 [e|[]]].
  { injection Hrun as <- <-. eexists. split; [done|]. by split. }
  run_bind_in Hrun. rewrite run_bind.
  destruct (apply plans (bool_decide (root args = root args)) (dry_run args) fs4)
    as [fs5 [e|[]]].
  { injection Hrun as <- <-. eexists. split; [done|]. by split. }
  injection Hrun as <- <-. eexists. split; [done|]. split; [done|].
  intros lines [= <-]. by eexists _, _, _.
Qed.

(** The scenario of section 8 with the source root as its own output:
    a.jpg has been moved, and the mode line says COPY. *)
Lemma output_equal_to_root_scenario :
  let args := {| root := ["inbox"]; rules_file := ["rules.json"];
                 dry_run := false; rename := false;
                 output := Some ["inbox"] |} in
  let fs := <[ ["rules.json"] := File "{}" ]> Scenario.disk in
  let run := main (fun _ => Some Scenario.rules) ["home"] "20240101_120000"
               args fs in
  (run.2 = inr [ "Planned actions: 2";
                 "Log: /home/logs/organize_log_inbox_to_inbox_20240101_120000.txt";
                 "Mode: COPY to output folder (/inbox)" ]
   ∧ run.1 !! ["inbox"; "a.jpg"] = None
   ∧ run.1 !! ["inbox"; "Images"; "a.jpg"] = Some (File "a"))
  ∧ ∃ r', main (fun _ => Some Scenario.rules) ["home"] "20240101_120000"
            {| root := root args; rules_file := rules_file args;
               dry_run := dry_run args; rename := rename args;
               output := None |} fs = (run.1, r')
          ∧ (∀ e, run.2 = inl e -> r' = inl e)
          ∧ (∀ lines, run.2 = inr lines ->
               ∃ count log rest,
                 lines = count :: log
                         :: ("Mode: COPY to output folder ("
                             +:+ Pth.render (root args) +:+ ")") :: rest
                 ∧ r' = inr (count :: log :: "Mode: IN-PLACE move" :: rest)).
Proof.
  intros args fs run. split; [repeat split; vm_compute; reflexivity|].
  apply (output_equal_to_root_moves (fun _ => Some Scenario.rules) ["home"]
           "20240101_120000" args fs run.1 run.2).
  - reflexivity.
  - apply surjective_pairing.
Defined.

(** ** Category names that are absolute paths *)

Lemma joinpath_absolute (p p' : Path) (s : string) :
  Str.starts_with_slash s = true -> p // s = p' // s.
Proof. intros H. unfold Pth.joinpath. by rewrite H. Qed.

Lemma resolve_all_ext (fs : FS) (out out' : Path) (rules : Rules)
    (rename : bool) (items : list Path) :
  (∀ item, desired_target out rules rename item
           = desired_target out' rules rename item) ->
  resolve_all fs out rules rename items = resolve_all fs out' rules rename items.
Proof.
  intros H. induction items as [|item rest IH]; [done|].
  cbn [resolve_all]. by rewrite H, IH.
Qed.

(** Category names that start with a slash.  [out_root / bucket] is then
    the bucket alone, as pathlib joins an absolute path: when every
    category name and the fallback name are absolute, the plan is the same
    for every output root, and its destinations lie where the rules say,
    not below the output root. *)
Theorem absolute_categories_ignore_output_root (in_root out out' : Path)
    (rules : Rules) (rename : bool) (fs : FS) :
  Forall (fun b => Str.starts_with_slash b = true)
    (fst <$> rules_folders rules) ->
  Str.starts_with_slash (rules_unknown rules) = true ->
  plan_actions in_root out rules rename fs
  = plan_actions in_root out' rules rename fs.
Proof.
  intros Hcat Hunk. rewrite !plan_actions_spec. f_equal.
  apply resolve_all_ext. intros item. unfold desired_target.
  f_equal. apply joinpath_absolute. unfold extension_bucket.
  destruct (bucket_loop_elem (Str.lower (Pth.suffix item)) (rules_folders rules)
              (rules_unknown rules)) as [H | ->]; [|done].
  rewrite Forall_forall in Hcat. by apply Hcat.
Qed.

(** With the category /srv/docs the text file is sent to /srv/docs,
    whatever the output root. *)
Lemma absolute_categories_scenario :
  let rules := {| folders := Some [("/srv/docs", [".txt"])];
                  unknown_folder := Some "/srv/other" |} in
  (plan_actions ["inbox"] ["out"] rules false Scenario.disk_one_text).2
  = inr [ {| src := ["inbox"; "x.txt"]; dst := ["srv"; "docs"; "x.txt"] |} ]
  ∧ plan_actions ["inbox"] ["out"] rules false Scenario.disk_one_text
    = plan_actions ["inbox"] ["inbox"] rules false Scenario.disk_one_text.
Proof.
  intros rules. split; [vm_compute; reflexivity|].
  apply absolute_categories_ignore_output_root.
  - by_evaluation.
  - reflexivity.
Defined.

(** ** The first run: when destinations collide *)

Lemma NoDup_fmap_inj_on {A B : Type} (g : A -> B) (l : list A) (x y : A) :
  NoDup (g <$> l) -> x ∈ l -> y ∈ l -> g x = g y -> x = y.
Proof.
  induction l as [|a l IH]; [by intros _ ?%elem_of_nil|].
  rewrite fmap_cons. intros [Ha Hl]%NoDup_cons Hx Hy Hg.
  apply elem_of_cons in Hx as [->|Hx], Hy as [->|Hy]; [done| | |by apply IH].
  - destruct Ha. rewrite Hg. by apply list_elem_of_fmap_2.
  - destruct Ha. rewrite <- Hg. by apply list_elem_of_fmap_2.
Qed.

(** The first run.  When no file to be planned finds its target on disk,
    every file is planned to out_root / bucket / target name; the
    destinations are then pairwise distinct as soon as the target names
    are, and, without renaming, exactly when no two planned files bear the
    same name. *)
Theorem first_run_destinations (in_root out_root : Path) (rules : Rules)
    (rename : bool) (fs : FS) (plans : list MovePlan) :
  Forall plain_name (fst <$> rules_folders rules) ->
  plain_name (rules_unknown rules) ->
  plain_targets rename in_root fs ->
  Forall (fun item =>
            exists_on fs (desired_target out_root rules rename item) = false)
    (filter (survives rules in_root fs) (rglob_on fs in_root)) ->
  (plan_actions in_root out_root rules rename fs).2 = inr plans ->
  Forall (fun pl =>
            dst pl = out_root ++ [extension_bucket (Pth.suffix (src pl)) rules;
                                  target_name rename (src pl)]) plans
  ∧ (NoDup (target_name rename <$> (src <$> plans)) -> NoDup (dst <$> plans))
  ∧ (rename = false ->
     NoDup (dst <$> plans) -> NoDup (Pth.name <$> (src <$> plans))).
Proof.
  intros Hcat Hunk Hplain Hfree. rewrite plan_actions_spec. simpl.
  intros Hrun. apply resolve_all_inr in Hrun as [Hsrc Hdst].
  assert (NoDup (src <$> plans)) as Hnd.
  { rewrite Hsrc. apply NoDup_filter, rglob_on_NoDup. }
  assert (∀ pl, pl ∈ plans ->
            dst pl = out_root ++ [extension_bucket (Pth.suffix (src pl)) rules;
                                  target_name rename (src pl)]) as Hshape.
  { intros pl Hpl. rewrite Forall_forall in Hdst. rewrite Forall_forall in Hfree.
    specialize (Hdst pl Hpl). simpl in Hdst.
    assert (src pl ∈ filter (survives rules in_root fs) (rglob_on fs in_root))
      as Hin by (rewrite <- Hsrc; by apply list_elem_of_fmap_2).
    rewrite (unique_path_absent _ _ (Hfree _ Hin)) in Hdst.
    injection Hdst as <-.
    destruct (survives_file _ _ _ _ Hin) as (Hpre & [data Hs] & _).
    apply desired_target_plain; [by apply plain_bucket|].
    by apply (Hplain (src pl) (File data)). }
  assert (dst <$> plans
          = (fun item => out_root ++ [extension_bucket (Pth.suffix item) rules;
                                      target_name rename item])
            <$> (src <$> plans)) as Hdsts.
  { rewrite <- list_fmap_compose. apply Forall_fmap_ext_1.
    apply Forall_forall. intros pl Hpl. by apply Hshape. }
  split; [by apply Forall_forall|]. split.
  - intros Htn. rewrite Hdsts. apply NoDup_fmap_2_strong; [|done].
    intros x y Hx Hy Heq. apply app_inv_head in Heq. injection Heq as _ Heq.
    by apply (NoDup_fmap_inj_on (target_name rename) (src <$> plans)).
  - intros -> Hd. rewrite Hdsts in Hd. simpl in Hd.
    change (fun item => out_root ++ [extension_bucket (Pth.suffix item) rules;
                                     Pth.name item])
      with ((fun nm => out_root ++ [extension_bucket (Pth.suffix_of nm) rules; nm])
            ∘ Pth.name) in Hd.
    rewrite list_fmap_compose in Hd. by apply NoDup_fmap_1 in Hd.
Qed.

(** The scenario of section 8: two files, two names. *)
Lemma first_run_scenario :
  NoDup (Pth.name <$> (src <$>
    [ {| src := ["inbox"; "notes.txt"]; dst := ["inbox"; "Docs"; "notes.txt"] |};
      {| src := ["inbox"; "a.jpg"]; dst := ["inbox"; "Images"; "a.jpg"] |} ])).
Proof.
  refine (proj2 (proj2 (first_run_destinations Scenario.inbox Scenario.inbox
            Scenario.rules false Scenario.disk _ _ _ _ _ _)) _ _).
  - by_evaluation.
  - by_evaluation.
  - by_evaluation.
  - by_evaluation.
  - vm_compute. reflexivity.
  - reflexivity.
  - by_evaluation.
Defined.
